(** * quicktype_runner.js: schema pre-processor, reference resolver and driver

    A shallow embedding of [tools/quicktype_runner.js].  JavaScript strings
    are lists of UTF-16 code units, JavaScript numbers are IEEE-754 binary64
    values, and the JSON values the script manipulates are trees produced by
    [JSON.parse].  The file-system, the network and the process are threaded
    through a small state-and-exception monad. *)

From Stdlib Require Import ZArith List String Ascii Bool Lia.
Import ListNotations.
Open Scope Z_scope.

(** ** Strings as sequences of UTF-16 code units *)

Definition jsstr := list Z.

(** An ASCII Rocq string as a JavaScript string. *)
Definition u (s : string) : jsstr :=
  map (fun a => Z.of_nat (nat_of_ascii a)) (list_ascii_of_string s).

(** [uq] reads a JSON text written with ['] in place of each double quote. *)
Definition uq (s : string) : jsstr :=
  map (fun c => if c =? 39 then 34 else c) (u s).

Definition jsstr_eqb (a b : jsstr) : bool := if list_eq_dec Z.eq_dec a b then true else false.

(** ** Numbers: binary64 values

    A finite value [DFin neg m e] stands for [(-1)^neg * m * 2^e]; the
    values built by rounding are canonical: either [2^52 <= m < 2^53] and
    [-1074 <= e <= 971] (normal), or [m < 2^52] and [e = -1074] (subnormal
    and zero).  [JSON.parse] never produces NaN, so NaN is not modelled. *)

Inductive double :=
| DFin (neg : bool) (m e : Z)
| DInf (neg : bool).

Definition double_eqb (x y : double) : bool :=
  match x, y with
  | DFin n1 m1 e1, DFin n2 m2 e2 => Bool.eqb n1 n2 && (m1 =? m2) && (e1 =? e2)
  | DInf n1, DInf n2 => Bool.eqb n1 n2
  | _, _ => false
  end.

Definition canonical (m e : Z) : Prop :=
  (2^52 <= m < 2^53 /\ -1074 <= e <= 971) \/ (0 <= m < 2^52 /\ e = -1074).

(** [q * 2^a <= p], written without negative powers. *)
Definition le2 (q a p : Z) : bool :=
  q * 2 ^ Z.max a 0 <=? p * 2 ^ Z.max (- a) 0.

(** [floor (log2 (p / q))] for [p, q > 0]. *)
Definition flog2 (p q : Z) : Z :=
  let a := Z.log2 p - Z.log2 q in
  if le2 q a p then a else a - 1.

(** Round-to-nearest-even of the rational [p / q] ([p >= 0], [q > 0]) to
    binary64, with sign [neg]. *)
Definition round_pos (neg : bool) (p q : Z) : double :=
  if p =? 0 then DFin neg 0 (-1074) else
  let e := Z.max (flog2 p q - 52) (-1074) in
  let num := p * 2 ^ Z.max (- e) 0 in
  let den := q * 2 ^ Z.max e 0 in
  let m0 := num / den in
  let r := num mod den in
  let m := if (den <? 2 * r) || ((2 * r =? den) && Z.odd m0) then m0 + 1 else m0 in
  let '(m, e) := if m =? 2 ^ 53 then (2 ^ 52, e + 1) else (m, e) in
  if 971 <? e then DInf neg else DFin neg m e.

(** The rational [M * 10^E] as a numerator/denominator pair. *)
Definition rat_of (M E : Z) : Z * Z :=
  if 0 <=? E then (M * 10 ^ E, 1) else (M, 10 ^ (- E)).

(** The Number value of a decimal literal [(-1)^neg * M * 10^E]. *)
Definition number_value (neg : bool) (M E : Z) : double :=
  let '(p, q) := rat_of M E in round_pos neg p q.

(** ** Number::toString (ECMA-262, 6.1.6.1.20) *)

(** Decimal digits (most significant first) of a positive integer. *)
Fixpoint dec_digits_aux (fuel : nat) (z : Z) (acc : list Z) : list Z :=
  match fuel with
  | O => acc
  | S f => if z <? 10 then z :: acc else dec_digits_aux f (z / 10) (z mod 10 :: acc)
  end.

Definition dec_digits (z : Z) : list Z := dec_digits_aux (S (Z.to_nat (Z.log2 z))) z [].

Definition zdigits (z : Z) : Z := Z.of_nat (List.length (dec_digits z)).

(** Code units of decimal digits. *)
Definition digit_chars (ds : list Z) : jsstr := map (fun d => 48 + d) ds.

(** [q * 10^a <= p], written without negative powers. *)
Definition le10 (q a p : Z) : bool :=
  q * 10 ^ Z.max a 0 <=? p * 10 ^ Z.max (- a) 0.

(** [floor (log10 (p / q))] for [p, q > 0]. *)
Definition flog10 (p q : Z) : Z :=
  let a := zdigits p - zdigits q in
  if le10 q a p then a else a - 1.

(** The value of a positive finite [m * 2^e] as a fraction. *)
Definition dval (m e : Z) : Z * Z := (m * 2 ^ Z.max e 0, 2 ^ Z.max (- e) 0).

(** [(k, n, s)] is admissible for [x]: [s] has [k] digits and the Number
    value of [s * 10^(n-k)] is [x]. *)
Definition valid (x : double) (k n s : Z) : bool :=
  (10 ^ (k - 1) <=? s) && (s <? 10 ^ k) &&
  double_eqb (let '(p, q) := rat_of s (n - k) in round_pos false p q) x.

(** The two [k]-digit neighbours of [p / q] (whose decimal exponent is
    [n0]), the closer one (ties to even [s]) tried first. *)
Definition candidate (x : double) (p q n0 k : Z) : option (Z * Z * Z) :=
  let num := p * 10 ^ Z.max (k - n0) 0 in
  let den := q * 10 ^ Z.max (n0 - k) 0 in
  let lo := num / den in
  let r := num mod den in
  let hi := if lo + 1 =? 10 ^ k then (n0 + 1, 10 ^ (k - 1)) else (n0, lo + 1) in
  let lo_first := (2 * r <? den) || ((2 * r =? den) && Z.even lo) in
  let c1 := if lo_first then (n0, lo) else hi in
  let c2 := if lo_first then hi else (n0, lo) in
  if valid x k (fst c1) (snd c1) then Some (k, fst c1, snd c1)
  else if valid x k (fst c2) (snd c2) then Some (k, fst c2, snd c2)
  else None.

Fixpoint search (x : double) (p q n0 : Z) (ks : list Z) : option (Z * Z * Z) :=
  match ks with
  | [] => None
  | k :: ks' =>
    match candidate x p q n0 k with
    | Some c => Some c
    | None => search x p q n0 ks'
    end
  end.

(** The exact decimal expansion of [m * 2^e]; 17 digits always suffice for a
    binary64 value, so [shortest] never falls back to it in practice. *)
Definition exact_dec (m e : Z) : Z * Z * Z :=
  let s := m * 2 ^ Z.max e 0 * 5 ^ Z.max (- e) 0 in
  let k := zdigits s in
  (k, k + Z.min e 0, s).

(** The shortest [(k, n, s)] for the positive value [m * 2^e]. *)
Definition shortest (m e : Z) : Z * Z * Z :=
  let '(p, q) := dval m e in
  match search (DFin false m e) p q (flog10 p q + 1) (map Z.of_nat (seq 1 17)) with
  | Some c => c
  | None => exact_dec m e
  end.

(** Steps 6 to 10 of Number::toString: the digits of [s] placed by [n]. *)
Definition format_dec (k n s : Z) : jsstr :=
  let ds := digit_chars (dec_digits s) in
  if (k <=? n) && (n <=? 21) then ds ++ repeat 48 (Z.to_nat (n - k))
  else if (0 <? n) && (n <=? 21) then
    firstn (Z.to_nat n) ds ++ [46] ++ skipn (Z.to_nat n) ds
  else if (-6 <? n) && (n <=? 0) then
    [48; 46] ++ repeat 48 (Z.to_nat (- n)) ++ ds
  else
    let ex := [101; if n - 1 <? 0 then 45 else 43] ++ digit_chars (dec_digits (Z.abs (n - 1))) in
    if k =? 1 then ds ++ ex
    else firstn 1 ds ++ [46] ++ skipn 1 ds ++ ex.

Definition number_to_string (x : double) : jsstr :=
  match x with
  | DInf neg => if neg then u "-Infinity" else u "Infinity"
  | DFin neg m e =>
    if m =? 0 then u "0" else
    let '(k, n, s) := shortest m e in
    (if neg then [45] else []) ++ format_dec k n s
  end.

(** ** JSON values as [JSON.parse] builds them

    An object is the list of its own properties in creation order; setting
    an existing key updates it in place.  (V8 lists array-index keys first;
    no property below depends on the order of keys.) *)

Local Unset Elimination Schemes.

Inductive json :=
| JNull
| JBool (b : bool)
| JNum (d : double)
| JStr (s : jsstr)
| JArr (l : list json)
| JObj (fs : list (jsstr * json)).

Local Set Elimination Schemes.

Fixpoint get_prop (fs : list (jsstr * json)) (k : jsstr) : option json :=
  match fs with
  | [] => None
  | (k', v) :: r => if jsstr_eqb k k' then Some v else get_prop r k
  end.

Fixpoint set_prop (fs : list (jsstr * json)) (k : jsstr) (v : json) : list (jsstr * json) :=
  match fs with
  | [] => [(k, v)]
  | (k', v') :: r => if jsstr_eqb k k' then (k', v) :: r else (k', v') :: set_prop r k v
  end.

(** ** [JSON.parse] (ECMA-262, 25.5.1) *)

Definition is_ws (c : Z) : bool := (c =? 32) || (c =? 9) || (c =? 10) || (c =? 13).

Fixpoint skip_ws (s : jsstr) : jsstr :=
  match s with
  | c :: r => if is_ws c then skip_ws r else s
  | [] => []
  end.

Definition is_digit (c : Z) : bool := (48 <=? c) && (c <=? 57).

Fixpoint span_digits (s : jsstr) : list Z * jsstr :=
  match s with
  | c :: r =>
    if is_digit c then let '(ds, r') := span_digits r in ((c - 48) :: ds, r')
    else ([], s)
  | [] => ([], [])
  end.

Definition digits_value (ds : list Z) : Z := fold_left (fun acc d => acc * 10 + d) ds 0.

(** The exponent part [e(+|-)?digits] of a number, if any. *)
Definition parse_exponent (s : jsstr) : option (Z * jsstr) :=
  match s with
  | c :: r =>
    if (c =? 101) || (c =? 69) then
      let '(sg, r1) :=
        match r with
        | c' :: r' => if c' =? 43 then (1, r') else if c' =? 45 then (-1, r') else (1, r)
        | [] => (1, r)
        end in
      let '(es, r2) := span_digits r1 in
      match es with [] => None | _ => Some (sg * digits_value es, r2) end
    else Some (0, s)
  | [] => Some (0, s)
  end.

(** [-? (0 | [1-9][0-9]* ) (. [0-9]+)? ([eE] [+-]? [0-9]+)?] *)
Definition parse_number (s : jsstr) : option (double * jsstr) :=
  let '(neg, s1) := match s with c :: r => if c =? 45 then (true, r) else (false, s) | [] => (false, s) end in
  let int_part :=
    match s1 with
    | c :: r => if c =? 48 then Some ([0], r) else if is_digit c then Some (span_digits s1) else None
    | [] => None
    end in
  match int_part with
  | None => None
  | Some (ids, r1) =>
    let frac :=
      match r1 with
      | c :: r => if c =? 46 then
                    let '(fs, r2) := span_digits r in
                    match fs with [] => None | _ => Some (fs, r2) end
                  else Some ([], r1)
      | [] => Some ([], r1)
      end in
    match frac with
    | None => None
    | Some (fs, r2) =>
      match parse_exponent r2 with
      | None => None
      | Some (ex, r3) =>
        Some (number_value neg (digits_value (ids ++ fs)) (ex - Z.of_nat (List.length fs)), r3)
      end
    end
  end.

Definition hex_value (c : Z) : option Z :=
  if is_digit c then Some (c - 48)
  else if (97 <=? c) && (c <=? 102) then Some (c - 87)
  else if (65 <=? c) && (c <=? 70) then Some (c - 55)
  else None.

Definition simple_escape (c : Z) : option Z :=
  if c =? 34 then Some 34 else if c =? 92 then Some 92 else if c =? 47 then Some 47
  else if c =? 98 then Some 8 else if c =? 102 then Some 12 else if c =? 110 then Some 10
  else if c =? 114 then Some 13 else if c =? 116 then Some 9 else None.

(** The characters of a string literal after its opening quote, up to and
    including the closing quote. *)
Fixpoint parse_string_body (s : jsstr) : option (jsstr * jsstr) :=
  match s with
  | [] => None
  | c :: r =>
    if c =? 34 then Some ([], r)
    else if c =? 92 then
      match r with
      | [] => None
      | e :: r2 =>
        if e =? 117 then
          match r2 with
          | h1 :: h2 :: h3 :: h4 :: r3 =>
            match hex_value h1, hex_value h2, hex_value h3, hex_value h4 with
            | Some a, Some b, Some c', Some d =>
              match parse_string_body r3 with
              | Some (t, rest) => Some ((a * 4096 + b * 256 + c' * 16 + d) :: t, rest)
              | None => None
              end
            | _, _, _, _ => None
            end
          | _ => None
          end
        else
          match simple_escape e, parse_string_body r2 with
          | Some ch, Some (t, rest) => Some (ch :: t, rest)
          | _, _ => None
          end
      end
    else if c <? 32 then None
    else
      match parse_string_body r with
      | Some (t, rest) => Some (c :: t, rest)
      | None => None
      end
  end.

(** The elements of an array after its first element starts: [pv] parses
    one element, [g] bounds their number. *)
Fixpoint parse_elems (pv : jsstr -> option (json * jsstr)) (g : nat) (s : jsstr)
    (acc : list json) : option (json * jsstr) :=
  match g with
  | O => None
  | S g' =>
    match pv s with
    | None => None
    | Some (v, s1) =>
      match skip_ws s1 with
      | c1 :: s2 =>
        if c1 =? 44 then parse_elems pv g' s2 (acc ++ [v])
        else if c1 =? 93 then Some (JArr (acc ++ [v]), s2)
        else None
      | [] => None
      end
    end
  end.

(** The members of an object after its opening brace; a repeated key
    updates the property in place (CreateDataProperty). *)
Fixpoint parse_members (pv : jsstr -> option (json * jsstr)) (g : nat) (s : jsstr)
    (acc : list (jsstr * json)) : option (json * jsstr) :=
  match g with
  | O => None
  | S g' =>
    match skip_ws s with
    | c1 :: s1 =>
      if c1 =? 34 then
        match parse_string_body s1 with
        | None => None
        | Some (k, s2) =>
          match skip_ws s2 with
          | c2 :: s3 =>
            if c2 =? 58 then
              match pv s3 with
              | None => None
              | Some (v, s4) =>
                match skip_ws s4 with
                | c3 :: s5 =>
                  if c3 =? 44 then parse_members pv g' s5 (set_prop acc k v)
                  else if c3 =? 125 then Some (JObj (set_prop acc k v), s5)
                  else None
                | [] => None
                end
              end
            else None
          | [] => None
          end
        end
      else None
    | [] => None
    end
  end.

(** A JSON value at the start of [s] (after white space); [fuel] bounds the
    nesting depth and the number of elements of each array or object. *)
Fixpoint parse_value (fuel : nat) (s : jsstr) : option (json * jsstr) :=
  match fuel with
  | O => None
  | S f =>
    match skip_ws s with
    | [] => None
    | c :: r =>
      if c =? 91 then
        match skip_ws r with
        | c1 :: r1 => if c1 =? 93 then Some (JArr [], r1) else parse_elems (parse_value f) f r []
        | [] => None
        end
      else if c =? 123 then
        match skip_ws r with
        | c1 :: r1 => if c1 =? 125 then Some (JObj [], r1) else parse_members (parse_value f) f r []
        | [] => None
        end
      else if c =? 34 then
        match parse_string_body r with
        | Some (t, r1) => Some (JStr t, r1)
        | None => None
        end
      else if (c =? 45) || is_digit c then
        match parse_number (c :: r) with
        | Some (d, r1) => Some (JNum d, r1)
        | None => None
        end
      else
        let s' := c :: r in
        if jsstr_eqb (firstn 4 s') (u "null") then Some (JNull, skipn 4 s')
        else if jsstr_eqb (firstn 4 s') (u "true") then Some (JBool true, skipn 4 s')
        else if jsstr_eqb (firstn 5 s') (u "false") then Some (JBool false, skipn 5 s')
        else None
    end
  end.

(** [JSON.parse text]; [None] is the SyntaxError it throws. *)
Definition JSON_parse (text : jsstr) : option json :=
  match parse_value (S (List.length text)) text with
  | Some (v, rest) => match skip_ws rest with [] => Some v | _ => None end
  | None => None
  end.

(** ** [JSON.stringify] (ECMA-262, 25.5.2) *)

Definition hex_char (d : Z) : Z := if d <? 10 then 48 + d else 87 + d.

(** UnicodeEscape: backslash, [u] and four lower-case hex digits. *)
Definition hex4 (c : Z) : jsstr :=
  [92; 117; hex_char (c / 4096 mod 16); hex_char (c / 256 mod 16);
   hex_char (c / 16 mod 16); hex_char (c mod 16)].

Definition escape_unit (c : Z) : jsstr :=
  if c =? 8 then [92; 98] else if c =? 9 then [92; 116]
  else if c =? 10 then [92; 110] else if c =? 12 then [92; 102]
  else if c =? 13 then [92; 114] else if c =? 34 then [92; 34]
  else if c =? 92 then [92; 92] else if c <? 32 then hex4 c
  else [c].

Definition is_lead (c : Z) : bool := (55296 <=? c) && (c <=? 56319).
Definition is_trail (c : Z) : bool := (56320 <=? c) && (c <=? 57343).

(** QuoteJSONString without the quotes: code points in turn, lone
    surrogates escaped. *)
Fixpoint quote_units (s : jsstr) : jsstr :=
  match s with
  | [] => []
  | c :: r =>
    if is_lead c then
      match r with
      | c2 :: r2 => if is_trail c2 then c :: c2 :: quote_units r2 else hex4 c ++ quote_units r
      | [] => hex4 c
      end
    else if is_trail c then hex4 c ++ quote_units r
    else escape_unit c ++ quote_units r
  end.

Definition quote (s : jsstr) : jsstr := 34 :: quote_units s ++ [34].

Fixpoint join (sep : jsstr) (l : list jsstr) : jsstr :=
  match l with
  | [] => []
  | [x] => x
  | x :: r => x ++ sep ++ join sep r
  end.

Fixpoint JSON_stringify (v : json) : jsstr :=
  match v with
  | JNull => u "null"
  | JBool b => if b then u "true" else u "false"
  | JNum (DInf _) => u "null"
  | JNum d => number_to_string d
  | JStr s => quote s
  | JArr l => [91] ++ join [44] (map JSON_stringify l) ++ [93]
  | JObj fs =>
    [123] ++ join [44] (map (fun kv => quote (fst kv) ++ [58] ++ JSON_stringify (snd kv)) fs) ++ [125]
  end.

(** ToString of a JSON value, as [+] applies it to a non-string operand. *)
Fixpoint to_js_string (v : json) : jsstr :=
  match v with
  | JNull => u "null"
  | JBool b => if b then u "true" else u "false"
  | JNum d => number_to_string d
  | JStr s => s
  | JArr l => join [44] (map (fun x => match x with JNull => [] | _ => to_js_string x end) l)
  | JObj _ => u "[object Object]"
  end.

(** ** Exceptions and results *)

Inductive js_error :=
| TypeError          (* property read on null, bad argument to path.join *)
| SyntaxError        (* JSON.parse *)
| ENOENT (p : jsstr) (* fs.readFileSync of a missing file *)
| EISDIR (p : jsstr) (* fs.readFileSync of a directory *)
| FetchFailed        (* fetch(): network error *)
| SchemaFetchError (address : jsstr).

Inductive result (A : Type) := Ok (a : A) | Err (e : js_error).
Arguments Ok {A} a.
Arguments Err {A} e.

(** ** appendDeprecatedDescription (lines 143-158) *)

(** ToBoolean. *)
Definition truthy (v : json) : bool :=
  match v with
  | JNull => false
  | JBool b => b
  | JNum (DFin _ m _) => negb (m =? 0)
  | JNum (DInf _) => true
  | JStr [] => false
  | JStr _ => true
  | JArr _ | JObj _ => true
  end.

Definition k_description : jsstr := u "description".
Definition k_x_deprecated : jsstr := u "x-deprecated".
Definition k_properties : jsstr := u "properties".

(** ["\n@deprecated" + (typeof deprecated === 'string' ? ` ${deprecated}` : '')] *)
Definition deprecated_note (deprecated : json) : jsstr :=
  (10 :: u "@deprecated") ++ match deprecated with JStr s => 32 :: s | _ => [] end.

(** The loop body for [props[key]]: destructure [description] (default
    ['']) and ['x-deprecated'], skip when the latter is falsy, otherwise
    assign the extended description.  Destructuring [null] throws. *)
Definition mark_deprecated (entry : json) : result json :=
  match entry with
  | JNull => Err TypeError
  | JObj fs =>
    let description :=
      match get_prop fs k_description with Some d => d | None => JStr [] end in
    match get_prop fs k_x_deprecated with
    | Some deprecated =>
      if truthy deprecated then
        Ok (JObj (set_prop fs k_description
                   (JStr (to_js_string description ++ deprecated_note deprecated))))
      else Ok entry
    | None => Ok entry
    end
  | _ => Ok entry
  end.

Fixpoint mark_entries (fs : list (jsstr * json)) : result (list (jsstr * json)) :=
  match fs with
  | [] => Ok []
  | (k, v) :: r =>
    match mark_deprecated v with
    | Err e => Err e
    | Ok v' => match mark_entries r with Err e => Err e | Ok r' => Ok ((k, v') :: r') end
    end
  end.

Fixpoint mark_elements (l : list json) : result (list json) :=
  match l with
  | [] => Ok []
  | v :: r =>
    match mark_deprecated v with
    | Err e => Err e
    | Ok v' => match mark_elements r with Err e => Err e | Ok r' => Ok (v' :: r') end
    end
  end.

(** [for (const key in props)]: the own keys of an object, the indices of
    an array or string (whose characters have no ['x-deprecated']), and no
    key at all for [undefined], [null], numbers and booleans. *)
Definition mark_props (props : json) : result json :=
  match props with
  | JObj fs => match mark_entries fs with Ok fs' => Ok (JObj fs') | Err e => Err e end
  | JArr l => match mark_elements l with Ok l' => Ok (JArr l') | Err e => Err e end
  | _ => Ok props
  end.

(** The parsed schema after the loop: [content.properties] throws on
    [null]; the loop mutates [content.properties] in place. *)
Definition deprecate (content : json) : result json :=
  match content with
  | JNull => Err TypeError
  | JObj fs =>
    match get_prop fs k_properties with
    | None => Ok content
    | Some props =>
      match mark_props props with
      | Ok props' => Ok (JObj (set_prop fs k_properties props'))
      | Err e => Err e
      end
    end
  | _ => Ok content
  end.

Definition appendDeprecatedDescription (schema : jsstr) : result jsstr :=
  match JSON_parse schema with
  | None => Err SyntaxError
  | Some content =>
    match deprecate content with
    | Ok content' => Ok (JSON_stringify content')
    | Err e => Err e
    end
  end.

(** ** The process: file-system, network, console and exit *)

Inductive fs_entry := File (contents : jsstr) | Dir.

(** What [await fetch(address)] meets: a network error, or a response
    whose body, read by [response.text()], is a text or fails. *)
Inductive body := BodyText (t : jsstr) | BodyError.
Inductive http := NetError | Response (b : body).

Inductive effect :=
| Stdout (s : jsstr)
| Stderr (s : jsstr)
| WriteFile (path contents : jsstr).

Record world := mkWorld {
  files : list (jsstr * fs_entry);
  network : jsstr -> http;
  env_workspace : option jsstr;   (* process.env['BUILD_WORKSPACE_DIRECTORY'] *)
  output : list effect
}.

(** A computation ends with a value, a thrown exception (a rejected
    promise in async code), or [process.exit]. *)
Inductive outcome (A : Type) := Done (a : A) | Raise (e : js_error) | Exited (code : Z).
Arguments Done {A} a.
Arguments Raise {A} e.
Arguments Exited {A} code.

Definition M (A : Type) := world -> outcome A * world.

Definition ret {A} (a : A) : M A := fun w => (Done a, w).

Definition bind {A B} (m : M A) (k : A -> M B) : M B :=
  fun w =>
    match m w with
    | (Done a, w') => k a w'
    | (Raise e, w') => (Raise e, w')
    | (Exited c, w') => (Exited c, w')
    end.

Notation "x <- m ;; k" := (bind m (fun x => k)) (at level 61, m at next level, right associativity).
Notation "m ;;; k" := (bind m (fun _ => k)) (at level 61, right associativity).

Definition throw {A} (e : js_error) : M A := fun w => (Raise e, w).

(** [try { m } catch (e) { h(e) }]; [process.exit] is not caught. *)
Definition try_catch {A} (m : M A) (h : js_error -> M A) : M A :=
  fun w =>
    match m w with
    | (Raise e, w') => h e w'
    | r => r
    end.

Definition lift {A} (r : result A) : M A :=
  match r with Ok a => ret a | Err e => throw e end.

Definition process_exit {A} (code : Z) : M A := fun w => (Exited code, w).

Definition emit (ef : effect) : M unit :=
  fun w => (Done tt, mkWorld (files w) (network w) (env_workspace w) (output w ++ [ef])).

Definition console_log (s : jsstr) : M unit := emit (Stdout s).
Definition console_error (s : jsstr) : M unit := emit (Stderr s).

Fixpoint lookup_path (fs : list (jsstr * fs_entry)) (p : jsstr) : option fs_entry :=
  match fs with
  | [] => None
  | (p', e) :: r => if jsstr_eqb p p' then Some e else lookup_path r p
  end.

Fixpoint update_path (fs : list (jsstr * fs_entry)) (p : jsstr) (e : fs_entry) : list (jsstr * fs_entry) :=
  match fs with
  | [] => [(p, e)]
  | (p', e') :: r => if jsstr_eqb p p' then (p', e) :: r else (p', e') :: update_path r p e
  end.

Definition existsSync (p : jsstr) : M bool :=
  fun w => (Done (match lookup_path (files w) p with Some _ => true | None => false end), w).

Definition readFileSync (p : jsstr) : M jsstr :=
  fun w =>
    match lookup_path (files w) p with
    | Some (File c) => (Done c, w)
    | Some Dir => (Raise (EISDIR p), w)
    | None => (Raise (ENOENT p), w)
    end.

Definition writeFileSync (p c : jsstr) : M unit :=
  fun w => (Done tt, mkWorld (update_path (files w) p (File c)) (network w) (env_workspace w)
                             (output w ++ [WriteFile p c])).

(** [await fetch(address)]: a network error rejects. *)
Definition http_fetch (address : jsstr) : M body :=
  fun w =>
    match network w address with
    | NetError => (Raise FetchFailed, w)
    | Response b => (Done b, w)
    end.

Definition get_env_workspace : M (option jsstr) := fun w => (Done (env_workspace w), w).

(** String.prototype.trim: WhiteSpace and LineTerminator code units. *)
Definition is_js_space (c : Z) : bool :=
  ((9 <=? c) && (c <=? 13)) || (c =? 32) || (c =? 160) || (c =? 5760) ||
  ((8192 <=? c) && (c <=? 8202)) || (c =? 8232) || (c =? 8233) || (c =? 8239) ||
  (c =? 8287) || (c =? 12288) || (c =? 65279).

Fixpoint trim_start (s : jsstr) : jsstr :=
  match s with
  | c :: r => if is_js_space c then trim_start r else s
  | [] => []
  end.

Definition trim (s : jsstr) : jsstr := rev (trim_start (rev (trim_start s))).

(** ** Node's [url] and [path] modules

    The script relies on [url.parse] and [path.join], [path.dirname],
    [path.isAbsolute] and [path.resolve] only through their results;
    they are parameters of the development, and so is [__dirname]. *)

Record url_record := mkUrl {
  protocol : option jsstr;
  hostname : option jsstr;
  url_path : option jsstr
}.

Class NodePlatform := {
  url_parse : jsstr -> url_record;
  path_join : list jsstr -> jsstr;
  path_dirname : jsstr -> jsstr;
  path_isAbsolute : jsstr -> bool;
  path_resolve : jsstr -> jsstr -> jsstr;
  module_dirname : jsstr
}.

(** ** FetchingJSONSchemaStore.fetch (lines 54-90) *)

(** The value of the local [content]: [null], a string, or the Promise
    that [response.text()] returns (it is not awaited). *)
Inductive content_val := CNull | CText (s : jsstr) | CPromise.

(** ToString, as [JSON.parse] applies it to its argument. *)
Definition content_string (c : content_val) : jsstr :=
  match c with
  | CNull => u "null"
  | CText s => s
  | CPromise => u "[object Promise]"
  end.

Definition option_str_eqb (o : option jsstr) (s : jsstr) : bool :=
  match o with Some t => jsstr_eqb t s | None => false end.

Definition option_str_truthy (o : option jsstr) : bool :=
  match o with Some (_ :: _) => true | _ => false end.

(** quicktype-core's [parseJSON]: [JSON.parse], its error rethrown. *)
Definition parseJSON (text : jsstr) : M json :=
  match JSON_parse text with
  | Some v => ret v
  | None => throw SyntaxError
  end.

Section Store.
Context `{NodePlatform}.

Definition fetch_first_step (address : jsstr) : M content_val :=
  let url := url_parse address in
  if option_str_eqb (protocol url) (u "ng-cli:") then
    match hostname url, url_path url with
    | Some h, Some p =>
      c <- readFileSync (path_join [module_dirname; u "../packages/angular/cli"; h; p]) ;;
      ret (CText (trim c))
    | _, _ => throw TypeError
    end
  else if option_str_truthy (hostname url) then
    try_catch
      (response <- http_fetch address ;;
       ret CPromise)
      (fun _ => ret CNull)
  else ret CNull.

Definition fetch_relative_step (inPath address : jsstr) (content : content_val) : M content_val :=
  match content with
  | CNull =>
    if negb (path_isAbsolute address) then
      let resolvedPath := path_join [path_dirname inPath; address] in
      b <- existsSync resolvedPath ;;
      if b then (c <- readFileSync resolvedPath ;; ret (CText c)) else ret CNull
    else ret CNull
  | _ => ret content
  end.

Definition fetch_literal_step (address : jsstr) (content : content_val) : M content_val :=
  match content with
  | CNull =>
    b <- existsSync address ;;
    if b then (c <- readFileSync address ;; ret (CText (trim c))) else ret CNull
  | _ => ret content
  end.

Definition store_fetch (inPath address : jsstr) : M (option json) :=
  content <- fetch_first_step address ;;
  content <- fetch_relative_step inPath address content ;;
  content <- fetch_literal_step address content ;;
  match content with
  | CNull => ret None
  | _ =>
    text <- lift (appendDeprecatedDescription (content_string content)) ;;
    v <- parseJSON text ;;
    ret (Some v)
  end.

End Store.

(** ** The generator *)

(** The parts of quicktype-core that the script does not see: which
    reference addresses it resolves for a schema, and the lines it renders
    from the schema and the resolved fragments. *)
Class QuicktypeCore := {
  schema_refs : json -> list jsstr;
  render_lines : json -> list json -> list jsstr
}.

Section Generator.
Context `{NodePlatform} `{QuicktypeCore}.

(** Modelled from the spec: quicktype-core's use of the store.  It asks the
    store for each reference address in turn; a failure of the store
    propagates and an absent schema is an unresolvable reference
    (sections 4.1, 6 and 7 of the spec). *)
Fixpoint resolve_refs (inPath : jsstr) (addresses : list jsstr) : M (list json) :=
  match addresses with
  | [] => ret []
  | a :: r =>
    o <- store_fetch inPath a ;;
    match o with
    | None => throw (SchemaFetchError a)
    | Some v => vs <- resolve_refs inPath r ;; ret (v :: vs)
    end
  end.

(** Modelled from the spec: [quicktype({lang, inputData, ...})] parses the
    source schema, resolves its references through the store, and renders
    the lines of the output. *)
Definition quicktype (inPath schema : jsstr) : M (list jsstr) :=
  root <- parseJSON schema ;;
  fragments <- resolve_refs inPath (schema_refs root) ;;
  ret (render_lines root fragments).

(** ** generate, main and the command line (lines 35-42, 98-137, 160-175) *)

Definition header : jsstr :=
  [10] ++ u "// THIS FILE IS AUTOMATICALLY GENERATED. TO UPDATE THIS FILE YOU NEED TO CHANGE THE"
  ++ [10] ++ u "// CORRESPONDING JSON SCHEMA FILE, THEN RUN devkit-admin build (or bazel build ...)."
  ++ [10; 10].

Definition footer : jsstr := [].

Definition generate (inPath : jsstr) : M jsstr :=
  content <- readFileSync inPath ;;
  schema <- lift (appendDeprecatedDescription content) ;;
  lines <- quicktype inPath schema ;;
  ret (header ++ join [10] lines ++ footer).

Definition main (inPath outPath : jsstr) : M unit :=
  content <- generate inPath ;;
  (if jsstr_eqb outPath (u "-") then console_log content ;;; process_exit 0 else ret tt) ;;;
  ws <- get_env_workspace ;;
  let buildWorkspaceDirectory := match ws with Some ((_ :: _) as d) => d | _ => u "." end in
  writeFileSync (path_resolve buildWorkspaceDirectory outPath) content.

Definition error_text (e : js_error) : jsstr :=
  match e with
  | TypeError => u "TypeError"
  | SyntaxError => u "SyntaxError"
  | ENOENT p => u "Error: ENOENT: no such file or directory, open " ++ p
  | EISDIR p => u "Error: EISDIR: illegal operation on a directory, read " ++ p
  | FetchFailed => u "TypeError: fetch failed"
  | SchemaFetchError a => u "Error: Could not fetch schema " ++ a
  end.

(** The [require.main === module] block, [argv] being
    [process.argv.slice(2)]. *)
Definition cli (argv : list jsstr) : M unit :=
  (if (List.length argv <? 2)%nat || (3 <? List.length argv)%nat then
     console_error (u "Must include 2 or 3 arguments.") ;;; process_exit 1
   else ret tt) ;;;
  try_catch
    (main (nth 0 argv []) (nth 1 argv []) ;;; process_exit 0)
    (fun err =>
       console_error (u "An error happened:") ;;;
       console_error (error_text err) ;;;
       process_exit 127).

End Generator.

(** ** An example platform

    Used to instantiate the hypotheses of the theorems below: [url.parse]
    of [scheme://host/path] and [scheme:path] addresses, [path.join] joining with ['/'], and
    a generator that resolves the [$ref] of the root schema. *)

Fixpoint break_at (c : Z) (s : jsstr) : jsstr * jsstr :=
  match s with
  | [] => ([], [])
  | x :: r => if x =? c then ([], s) else let '(a, b) := break_at c r in (x :: a, b)
  end.

Definition example_url_parse (a : jsstr) : url_record :=
  let '(scheme, rest) := break_at 58 a in
  if jsstr_eqb (firstn 3 rest) [58; 47; 47] then
    let '(h, p) := break_at 47 (skipn 3 rest) in
    mkUrl (Some (scheme ++ [58])) (Some h) (Some p)
  else match scheme, rest with
       | _ :: _, _ :: p => mkUrl (Some (scheme ++ [58])) None (Some p)
       | _, _ => mkUrl None None (Some a)
       end.

Definition example_dirname (p : jsstr) : jsstr :=
  rev (tl (snd (break_at 47 (rev p)))).

Definition example_is_absolute (p : jsstr) : bool :=
  match p with c :: _ => c =? 47 | [] => false end.

#[local] Instance example_platform : NodePlatform := {|
  url_parse := example_url_parse;
  path_join := join [47];
  path_dirname := example_dirname;
  path_isAbsolute := example_is_absolute;
  path_resolve := fun base p => if example_is_absolute p then p else base ++ [47] ++ p;
  module_dirname := u "/repo/tools"
|}.

#[local] Instance example_quicktype : QuicktypeCore := {|
  schema_refs := fun root =>
    match root with
    | JObj fs => match get_prop fs (u "$ref") with Some (JStr a) => [a] | _ => [] end
    | _ => []
    end;
  render_lines := fun _ _ => [u "export type Schema = {"; u "};"]
|}.

Definition example_world (fs : list (jsstr * fs_entry)) (net : jsstr -> http) : world :=
  mkWorld fs net None [].

(** ** Definitions used by the proofs *)

(** A computation that leaves the world unchanged. *)
Definition reads_only {A} (m : M A) : Prop := forall w, snd (m w) = w.

(** The world after the effects [l] have been emitted. *)
Definition with_output (w : world) (l : list effect) : world :=
  mkWorld (files w) (network w) (env_workspace w) (output w ++ l).

(** A decimal digit value. *)
Definition is_dig (d : Z) : Prop := 0 <= d < 10.

(** What may follow a value inside serialised JSON: the end of the text,
    a comma, a closing bracket or a closing brace. *)
Definition delim (rest : jsstr) : Prop :=
  match rest with [] => True | c :: _ => c = 44 \/ c = 93 \/ c = 125 end.

(** The text of a fraction part [.digits] (empty when there are no digits). *)
Definition frac_text (fs : list Z) : jsstr :=
  match fs with [] => [] | _ => 46 :: digit_chars fs end.

(** The text of an exponent part [e(+|-)digits], if any. *)
Definition exp_text (ex : option (bool * list Z)) : jsstr :=
  match ex with
  | None => []
  | Some (en, eds) => 101 :: (if en then 45 else 43) :: digit_chars eds
  end.

(** The value of an exponent part. *)
Definition exp_value (ex : option (bool * list Z)) : Z :=
  match ex with
  | None => 0
  | Some (en, eds) => (if en then -1 else 1) * digits_value eds
  end.

(** An integer part as the number grammar allows it: [0], or a non-zero
    digit followed by digits. *)
Definition int_ok (ids : list Z) : Prop :=
  ids = [0] \/ exists d r, ids = d :: r /\ 1 <= d /\ is_dig d /\ Forall is_dig r.

(** An exponent part has at least one digit. *)
Definition exp_ok (ex : option (bool * list Z)) : Prop :=
  match ex with None => True | Some (_, eds) => eds <> [] /\ Forall is_dig eds end.

(** [(k, n, s)] is a decimal representation of [x] in the sense of
    Number::toString: [s] has [k] digits and [s * 10^(n-k)] rounds to [x]. *)
Definition dec_ok (x : double) (c : Z * Z * Z) : Prop :=
  let '(k, n, s) := c in
  1 <= k /\ 10 ^ (k - 1) <= s < 10 ^ k /\
  (let '(p, q) := rat_of s (n - k) in round_pos false p q) = x.

(** A UTF-16 code unit. *)
Definition unit_ok (c : Z) : Prop := 0 <= c < 65536.

(** Induction over JSON values, with the hypothesis for every element of
    an array and every property value of an object. *)
Section JsonInd.
Variable P : json -> Prop.
Hypothesis HNull : P JNull.
Hypothesis HBool : forall b, P (JBool b).
Hypothesis HNum : forall d, P (JNum d).
Hypothesis HStr : forall s, P (JStr s).
Hypothesis HArr : forall l, Forall P l -> P (JArr l).
Hypothesis HObj : forall fs, Forall (fun kv => P (snd kv)) fs -> P (JObj fs).

Fixpoint json_ind' (v : json) : P v :=
  match v with
  | JNull => HNull
  | JBool b => HBool b
  | JNum d => HNum d
  | JStr s => HStr s
  | JArr l =>
    HArr l ((fix go (l : list json) : Forall P l :=
               match l with [] => Forall_nil _ | x :: r => Forall_cons _ (json_ind' x) (go r) end) l)
  | JObj fs =>
    HObj fs ((fix go (fs : list (jsstr * json)) : Forall (fun kv => P (snd kv)) fs :=
                match fs with
                | [] => Forall_nil _
                | kv :: r => Forall_cons _ (json_ind' (snd kv)) (go r)
                end) fs)
  end.
End JsonInd.

(** What a value becomes through [JSON.stringify] and [JSON.parse]: an
    infinite number is written [null], and [-0] is written [0]. *)
Fixpoint norm (v : json) : json :=
  match v with
  | JNum (DInf _) => JNull
  | JNum (DFin neg m e) => if m =? 0 then JNum (DFin false 0 (-1074)) else v
  | JArr l => JArr (map norm l)
  | JObj fs => JObj (map (fun kv => (fst kv, norm (snd kv))) fs)
  | _ => v
  end.

(** The number of nodes of a value. *)
Fixpoint jsize (v : json) : nat :=
  match v with
  | JArr l => S (list_sum (map jsize l))
  | JObj fs => S (list_sum (map (fun kv => jsize (snd kv)) fs))
  | _ => 1%nat
  end.

(** The values [JSON.parse] produces: canonical finite numbers or
    infinities, strings of code units, and objects without repeated keys. *)
Fixpoint wf (v : json) : Prop :=
  match v with
  | JNum (DFin _ m e) => canonical m e
  | JNum (DInf _) => True
  | JStr s => Forall unit_ok s
  | JArr l => (fix wfl (l : list json) : Prop :=
                 match l with [] => True | x :: r => wf x /\ wfl r end) l
  | JObj fs => NoDup (map fst fs) /\
               (fix wfo (fs : list (jsstr * json)) : Prop :=
                  match fs with [] => True | kv :: r => (Forall unit_ok (fst kv) /\ wf (snd kv)) /\ wfo r end) fs
  | _ => True
  end.

(** The first character of a serialised value. *)
Definition head_ok (c : Z) : Prop := is_ws c = false /\ c <> 93 /\ c <> 125.

(** A well-formed object property. *)
Definition member_ok (kv : jsstr * json) : Prop := Forall unit_ok (fst kv) /\ wf (snd kv).

(** ** Example inputs *)

(** Schemas given to the pre-processor. *)
Definition w1_schema : jsstr :=
  uq "{'properties':{'a':{'x-deprecated':true},'b':{'description':'Old.','x-deprecated':'use X instead'}}}".
Definition w1_fs : list (jsstr * json) :=
  match JSON_parse w1_schema with Some (JObj fs) => fs | _ => [] end.
Definition w1_pfs : list (jsstr * json) :=
  match get_prop w1_fs k_properties with Some (JObj fs) => fs | _ => [] end.
Definition w1_efs (k : jsstr) : list (jsstr * json) :=
  match get_prop w1_pfs k with Some (JObj fs) => fs | _ => [] end.
Definition w1_out : jsstr :=
  match appendDeprecatedDescription w1_schema with Ok t => t | Err _ => [] end.

Definition w5_schema : jsstr :=
  uq "{'properties':{'a':{'description':'Kept.','type':'string'},'b':{'x-deprecated':true}}}".
Definition w5_fs : list (jsstr * json) :=
  match JSON_parse w5_schema with Some (JObj fs) => fs | _ => [] end.
Definition w5_pfs : list (jsstr * json) :=
  match get_prop w5_fs k_properties with Some (JObj fs) => fs | _ => [] end.
Definition w5_entry : json :=
  match get_prop w5_pfs (u "a") with Some e => e | None => JNull end.
Definition w5_out : jsstr :=
  match appendDeprecatedDescription w5_schema with Ok t => t | Err _ => [] end.

Definition w9_schema : jsstr :=
  uq "{'properties':{'a':{'description':'Kept.','x-deprecated':false}}}".
Definition w9_fs : list (jsstr * json) :=
  match JSON_parse w9_schema with Some (JObj fs) => fs | _ => [] end.
Definition w9_pfs : list (jsstr * json) :=
  match get_prop w9_fs k_properties with Some (JObj fs) => fs | _ => [] end.
Definition w9_efs : list (jsstr * json) :=
  match get_prop w9_pfs (u "a") with Some (JObj fs) => fs | _ => [] end.
Definition w9_out : jsstr :=
  match appendDeprecatedDescription w9_schema with Ok t => t | Err _ => [] end.

(** Worlds for the resolver and the driver. *)
Definition w2_address : jsstr := u "https://example.com/schema.json".
Definition w2_body : jsstr := uq "{'type':'object'}".
Definition w2_world : world :=
  example_world [(u "/in/schema.json", File (u "{}"))]
    (fun a => if jsstr_eqb a w2_address then Response (BodyText w2_body) else NetError).

Definition w3_world (r : http) : world :=
  example_world [(u "/in/schema.json", File (u "{}"))] (fun _ => r).

Definition w4_in : jsstr := u "/in/schema.json".
Definition w4_address : jsstr := u "ng-cli://commands/missing.json".
Definition w4_content : jsstr := uq "{'$ref':'ng-cli://commands/missing.json'}".
Definition w4_world : world := example_world [(w4_in, File w4_content)] (fun _ => NetError).
Definition w4_root : json := JObj [(u "$ref", JStr w4_address)].

Definition w6_in : jsstr := u "/in/a.json".
Definition w6_content : jsstr := uq "{'type':'object'}".
Definition w6_world : world := example_world [(w6_in, File w6_content)] (fun _ => NetError).
Definition w6_text : jsstr :=
  header ++ join [10] (render_lines (JObj [(u "type", JStr (u "object"))]) []) ++ footer.

Definition w7_world : world := example_world [] (fun _ => NetError).

(** A schema with a number and a negative zero. *)
Definition w10_text : jsstr := uq "{'a':[1,-0,'x'],'b':null}".
Definition w10_value : json :=
  JObj [(u "a", JArr [JNum (DFin false (2 ^ 52) (-52)); JNum (DFin true 0 (-1074)); JStr (u "x")]);
        (u "b", JNull)].

(** ** Example inputs of the resolver's remaining steps *)

(** A schema next to the input and a file of the same literal name. *)
Definition wx_rel_world : world :=
  example_world [(u "/in/defs.json", File (uq "{'type':'string'}"));
                 (u "defs.json", File (uq "{'type':'number'}"))] (fun _ => NetError).

(** A file next to the input that is not JSON. *)
Definition wx_bad_world : world :=
  example_world [(u "/in/defs.json", File (u "type: string"))] (fun _ => NetError).

(** A directory next to the input. *)
Definition wx_dir_world : world :=
  example_world [(u "/in/defs", Dir)] (fun _ => NetError).

(** Only a file at the literal address, with surrounding white space. *)
Definition wx_lit_world : world :=
  example_world [(u "/abs/defs.json", File (uq " {'type':'number'}" ++ [10]))]
                (fun _ => NetError).

(** The Angular CLI schema of an [ng-cli://] address, at the path the
    example [path.join] gives (it does not normalise). *)
Definition wx_ng_world : world :=
  example_world [(join [47] [u "/repo/tools"; u "../packages/angular/cli"; u "commands"; u "/config.json"],
                  File (uq "{'type':'object'}" ++ [10]))] (fun _ => NetError).

(** ** Exit codes and further inputs of the command line *)

(** Every [process.exit] that [m] may reach has a code satisfying [P]. *)
Definition exits_only {A} (P : Z -> Prop) (m : M A) : Prop :=
  forall w c, fst (m w) = Exited c -> P c.

(** An input schema next to an output file that is already there. *)
Definition wx_cli_world : world :=
  mkWorld [(u "/ws/in.json", File (uq "{'type':'string'}")); (u "/ws/out.ts", File (u "old"))]
          (fun _ => NetError) (Some (u "/ws")) [].



(** An entry whose annotation and description are numbers. *)
Definition wx_num_schema : jsstr :=
  uq "{'properties':{'a':{'description':5,'x-deprecated':1,'type':'string'}}}".
Definition wx_num_fs : list (jsstr * json) :=
  match JSON_parse wx_num_schema with Some (JObj fs) => fs | _ => [] end.
Definition wx_num_pfs : list (jsstr * json) :=
  match get_prop wx_num_fs k_properties with Some (JObj fs) => fs | _ => [] end.
Definition wx_num_efs : list (jsstr * json) :=
  match get_prop wx_num_pfs (u "a") with Some (JObj fs) => fs | _ => [] end.
Definition wx_num_out : jsstr :=
  match appendDeprecatedDescription wx_num_schema with Ok t => t | Err _ => [] end.

(** * Proofs *)

(** ** Strings, properties *)

Lemma jsstr_eqb_spec (a b : jsstr) : jsstr_eqb a b = true <-> a = b.
Proof.
  unfold jsstr_eqb; destruct (list_eq_dec Z.eq_dec a b); split; congruence.
Qed.

Lemma jsstr_eqb_refl (a : jsstr) : jsstr_eqb a a = true.
Proof. apply jsstr_eqb_spec; reflexivity. Qed.

Lemma jsstr_eqb_neq (a b : jsstr) : a <> b -> jsstr_eqb a b = false.
Proof.
  intros H; destruct (jsstr_eqb a b) eqn:E; [apply jsstr_eqb_spec in E; congruence | reflexivity].
Qed.

Lemma get_set_same fs k v : get_prop (set_prop fs k v) k = Some v.
Proof.
  induction fs as [| [k' v'] r IH]; simpl.
  - rewrite jsstr_eqb_refl; reflexivity.
  - destruct (jsstr_eqb k k') eqn:E; simpl.
    + apply jsstr_eqb_spec in E; subst; rewrite jsstr_eqb_refl; reflexivity.
    + rewrite E; exact IH.
Qed.

Lemma get_set_other fs k k' v : k' <> k -> get_prop (set_prop fs k v) k' = get_prop fs k'.
Proof.
  intros Hne; induction fs as [| [k0 v0] r IH]; simpl.
  - rewrite jsstr_eqb_neq by exact Hne; reflexivity.
  - destruct (jsstr_eqb k k0) eqn:E; simpl.
    + apply jsstr_eqb_spec in E; subst.
      rewrite jsstr_eqb_neq by exact Hne; reflexivity.
    + rewrite IH; reflexivity.
Qed.

(** ** The loop of appendDeprecatedDescription *)

Lemma mark_entries_get fs fs' k v :
  mark_entries fs = Ok fs' -> get_prop fs k = Some v ->
  exists v', mark_deprecated v = Ok v' /\ get_prop fs' k = Some v'.
Proof.
  revert fs'; induction fs as [| [k0 v0] r IH]; intros fs' Hm Hg; simpl in *.
  - discriminate.
  - destruct (mark_deprecated v0) as [v0' | e] eqn:Hv0; [| discriminate].
    destruct (mark_entries r) as [r' | e] eqn:Hr; [| discriminate].
    injection Hm as <-; simpl.
    destruct (jsstr_eqb k k0).
    + injection Hg as <-; eauto.
    + eauto.
Qed.

(** The pre-processor turns the entry [k] of the top-level [properties]
    object into the result of one pass of the loop body, and returns the
    serialisation of the schema so updated. *)
Lemma append_entry fs pfs k entry schema out :
  JSON_parse schema = Some (JObj fs) ->
  get_prop fs k_properties = Some (JObj pfs) ->
  get_prop pfs k = Some entry ->
  appendDeprecatedDescription schema = Ok out ->
  exists fs' pfs' entry',
    out = JSON_stringify (JObj fs') /\
    get_prop fs' k_properties = Some (JObj pfs') /\
    get_prop pfs' k = Some entry' /\
    mark_deprecated entry = Ok entry'.
Proof.
  intros Hp Hprops Hk Hout.
  unfold appendDeprecatedDescription in Hout; rewrite Hp in Hout; simpl in Hout.
  rewrite Hprops in Hout; simpl in Hout.
  destruct (mark_entries pfs) as [pfs' | e] eqn:Hm; [| discriminate].
  injection Hout as <-.
  destruct (mark_entries_get _ _ _ _ Hm Hk) as (entry' & He & Hk').
  exists (set_prop fs k_properties (JObj pfs')), pfs', entry'.
  repeat split; auto using get_set_same.
Qed.

(** C1: an entry with a truthy [x-deprecated] gets the description it had
    ([''] when absent) followed by ["\n@deprecated"], and by a space and
    the annotation's text when that is a string. *)
Theorem deprecated_description_appended fs pfs k efs dep prior schema out :
  JSON_parse schema = Some (JObj fs) ->
  get_prop fs k_properties = Some (JObj pfs) ->
  get_prop pfs k = Some (JObj efs) ->
  get_prop efs k_x_deprecated = Some dep ->
  (get_prop efs k_description = None /\ prior = [] \/
   get_prop efs k_description = Some (JStr prior)) ->
  appendDeprecatedDescription schema = Ok out ->
  exists fs' pfs' efs',
    out = JSON_stringify (JObj fs') /\
    get_prop fs' k_properties = Some (JObj pfs') /\
    get_prop pfs' k = Some (JObj efs') /\
    (dep = JBool true ->
     get_prop efs' k_description = Some (JStr (prior ++ [10] ++ u "@deprecated"))) /\
    (forall s, dep = JStr s -> s <> [] ->
     get_prop efs' k_description = Some (JStr (prior ++ [10] ++ u "@deprecated " ++ s))).
Proof.
  intros Hp Hprops Hk Hdep Hprior Hout.
  destruct (append_entry _ _ _ _ _ _ Hp Hprops Hk Hout) as (fs' & pfs' & entry' & -> & H1 & H2 & Hm).
  exists fs', pfs'.
  simpl in Hm; rewrite Hdep in Hm.
  assert (Hd : to_js_string (match get_prop efs k_description with Some d => d | None => JStr [] end) = prior).
  { destruct Hprior as [[-> ->] | ->]; reflexivity. }
  destruct (truthy dep) eqn:Ht.
  - injection Hm as <-; rewrite Hd in *.
    exists (set_prop efs k_description (JStr (prior ++ deprecated_note dep))).
    repeat split; auto.
    + intros ->; rewrite get_set_same; reflexivity.
    + intros s -> _; rewrite get_set_same; reflexivity.
  - injection Hm as <-; exists efs.
    repeat split; auto.
    + intros ->; discriminate.
    + intros s -> Hs; destruct s; [contradiction | discriminate].
Qed.

Lemma deprecated_description_appended_witness :
  exists fs' pfs' efs',
    w1_out = JSON_stringify (JObj fs') /\
    get_prop fs' k_properties = Some (JObj pfs') /\
    get_prop pfs' (u "b") = Some (JObj efs') /\
    (JStr (u "use X instead") = JBool true ->
     get_prop efs' k_description = Some (JStr (u "Old." ++ [10] ++ u "@deprecated"))) /\
    (forall s, JStr (u "use X instead") = JStr s -> s <> [] ->
     get_prop efs' k_description = Some (JStr (u "Old." ++ [10] ++ u "@deprecated " ++ s))).
Proof.
  apply (deprecated_description_appended w1_fs w1_pfs (u "b") (w1_efs (u "b"))
           (JStr (u "use X instead")) (u "Old.") w1_schema w1_out);
    try (vm_compute; reflexivity).
  right; vm_compute; reflexivity.
Defined.

(** An entry the loop body leaves alone is serialised as it was parsed. *)
Lemma append_entry_unchanged fs pfs k entry schema out :
  JSON_parse schema = Some (JObj fs) ->
  get_prop fs k_properties = Some (JObj pfs) ->
  get_prop pfs k = Some entry ->
  (forall entry', mark_deprecated entry = Ok entry' -> entry' = entry) ->
  appendDeprecatedDescription schema = Ok out ->
  exists fs' pfs',
    out = JSON_stringify (JObj fs') /\
    get_prop fs' k_properties = Some (JObj pfs') /\
    get_prop pfs' k = Some entry.
Proof.
  intros Hp Hprops Hk Hsame Hout.
  destruct (append_entry _ _ _ _ _ _ Hp Hprops Hk Hout) as (fs' & pfs' & entry' & -> & H1 & H2 & Hm).
  apply Hsame in Hm; subst; eauto.
Qed.

(** C5: a [properties] entry without an [x-deprecated] key is serialised
    exactly as it was parsed: its description and every other field are
    left as they were. *)
Theorem entry_without_annotation_untouched fs pfs k entry schema out :
  JSON_parse schema = Some (JObj fs) ->
  get_prop fs k_properties = Some (JObj pfs) ->
  get_prop pfs k = Some entry ->
  (forall efs, entry = JObj efs -> get_prop efs k_x_deprecated = None) ->
  appendDeprecatedDescription schema = Ok out ->
  exists fs' pfs',
    out = JSON_stringify (JObj fs') /\
    get_prop fs' k_properties = Some (JObj pfs') /\
    get_prop pfs' k = Some entry.
Proof.
  intros Hp Hprops Hk Hnone Hout.
  apply (append_entry_unchanged fs pfs k entry schema out); auto.
  intros entry' Hm; destruct entry; simpl in Hm; try (injection Hm; auto; fail).
  - discriminate.
  - rewrite (Hnone fs0 eq_refl) in Hm; injection Hm; auto.
Qed.

Lemma entry_without_annotation_untouched_witness :
  exists fs' pfs',
    w5_out = JSON_stringify (JObj fs') /\
    get_prop fs' k_properties = Some (JObj pfs') /\
    get_prop pfs' (u "a") = Some w5_entry.
Proof.
  apply (entry_without_annotation_untouched w5_fs w5_pfs (u "a") w5_entry w5_schema w5_out);
    try (vm_compute; reflexivity).
  intros efs Hefs; vm_compute in Hefs; injection Hefs as <-; vm_compute; reflexivity.
Defined.

(** C9: an [x-deprecated] that is present but falsy ([false], the empty string, the
    number 0 or [null]) is treated as absent: the entry is serialised
    exactly as it was parsed, with no ["\n@deprecated"] added. *)
Theorem falsy_annotation_untouched fs pfs k efs dep schema out :
  JSON_parse schema = Some (JObj fs) ->
  get_prop fs k_properties = Some (JObj pfs) ->
  get_prop pfs k = Some (JObj efs) ->
  get_prop efs k_x_deprecated = Some dep ->
  (dep = JBool false \/ dep = JStr [] \/ (exists neg e, dep = JNum (DFin neg 0 e)) \/ dep = JNull) ->
  appendDeprecatedDescription schema = Ok out ->
  exists fs' pfs',
    out = JSON_stringify (JObj fs') /\
    get_prop fs' k_properties = Some (JObj pfs') /\
    get_prop pfs' k = Some (JObj efs).
Proof.
  intros Hp Hprops Hk Hdep Hfalsy Hout.
  apply (append_entry_unchanged fs pfs k (JObj efs) schema out); auto.
  intros entry' Hm; simpl in Hm; rewrite Hdep in Hm.
  assert (Ht : truthy dep = false).
  { destruct Hfalsy as [-> | [-> | [(neg & e & ->) | ->]]]; reflexivity. }
  rewrite Ht in Hm; injection Hm; auto.
Qed.

Lemma falsy_annotation_untouched_witness :
  exists fs' pfs',
    w9_out = JSON_stringify (JObj fs') /\
    get_prop fs' k_properties = Some (JObj pfs') /\
    get_prop pfs' (u "a") = Some (JObj w9_efs).
Proof.
  apply (falsy_annotation_untouched w9_fs w9_pfs (u "a") w9_efs (JBool false) w9_schema w9_out);
    try (vm_compute; reflexivity).
  left; reflexivity.
Defined.

(** ** Computations that leave the world as it was *)

Create HintDb readonly.

Lemma ret_ro {A} (a : A) : reads_only (ret a).
Proof. intros w; reflexivity. Qed.

Lemma throw_ro {A} e : reads_only (@throw A e).
Proof. intros w; reflexivity. Qed.

Lemma lift_ro {A} (r : result A) : reads_only (lift r).
Proof. destruct r; intros w; reflexivity. Qed.

Lemma bind_ro {A B} (m : M A) (k : A -> M B) :
  reads_only m -> (forall a, reads_only (k a)) -> reads_only (bind m k).
Proof.
  intros Hm Hk w; unfold bind.
  specialize (Hm w); destruct (m w) as [[a | e | c] w'] eqn:E; simpl in *; subst;
    [apply Hk | reflexivity | reflexivity].
Qed.

Lemma try_catch_ro {A} (m : M A) h :
  reads_only m -> (forall e, reads_only (h e)) -> reads_only (try_catch m h).
Proof.
  intros Hm Hh w; unfold try_catch.
  specialize (Hm w); destruct (m w) as [[a | e | c] w'] eqn:E; simpl in *; subst;
    [reflexivity | apply Hh | reflexivity].
Qed.

Lemma readFileSync_ro p : reads_only (readFileSync p).
Proof. intros w; unfold readFileSync; destruct (lookup_path (files w) p) as [[] |]; reflexivity. Qed.

Lemma existsSync_ro p : reads_only (existsSync p).
Proof. intros w; reflexivity. Qed.

Lemma http_fetch_ro a : reads_only (http_fetch a).
Proof. intros w; unfold http_fetch; destruct (network w a); reflexivity. Qed.

Lemma parseJSON_ro t : reads_only (parseJSON t).
Proof. unfold parseJSON; destruct (JSON_parse t); intros w; reflexivity. Qed.

#[local] Hint Resolve ret_ro throw_ro lift_ro bind_ro try_catch_ro readFileSync_ro
  existsSync_ro http_fetch_ro parseJSON_ro : readonly.

Lemma object_promise_not_json : JSON_parse (u "[object Promise]") = None.
Proof. vm_compute; reflexivity. Qed.

Lemma option_str_eqb_other o s : o <> Some s -> option_str_eqb o s = false.
Proof.
  destruct o as [t |]; simpl; auto.
  intros Hne; apply jsstr_eqb_neq; congruence.
Qed.

Section Runner.
Context `{NodePlatform} `{QuicktypeCore}.

Lemma fetch_first_step_ro a : reads_only (fetch_first_step a).
Proof.
  unfold fetch_first_step; cbv zeta.
  destruct (option_str_eqb (protocol (url_parse a)) (u "ng-cli:"));
    [destruct (hostname (url_parse a)), (url_path (url_parse a))
    | destruct (option_str_truthy (hostname (url_parse a)))];
    eauto with readonly.
Qed.

Lemma store_fetch_ro inPath a : reads_only (store_fetch inPath a).
Proof.
  unfold store_fetch.
  apply bind_ro; [apply fetch_first_step_ro | intros c1].
  apply bind_ro.
  { unfold fetch_relative_step; destruct c1; [destruct (negb _); cbv zeta | |];
      eauto 6 with readonly.
    apply bind_ro; [apply existsSync_ro | intros []]; eauto with readonly. }
  intros c2; apply bind_ro.
  { unfold fetch_literal_step; destruct c2; eauto with readonly.
    apply bind_ro; [apply existsSync_ro | intros []]; eauto with readonly. }
  intros [| |]; eauto with readonly.
Qed.

Lemma resolve_refs_ro inPath l : reads_only (resolve_refs inPath l).
Proof.
  induction l as [| a r IH]; simpl; eauto with readonly.
  apply bind_ro; [apply store_fetch_ro | intros [v |]]; eauto with readonly.
Qed.

Lemma generate_ro inPath : reads_only (generate inPath).
Proof.
  unfold generate, quicktype.
  repeat (apply bind_ro; [eauto using resolve_refs_ro with readonly | intros ?]).
  apply ret_ro.
Qed.

End Runner.

(** ** The resolver *)

Lemma append_promise : appendDeprecatedDescription (content_string CPromise) = Err SyntaxError.
Proof. vm_compute; reflexivity. Qed.

Section Resolver.
Context `{NodePlatform}.

(** Whatever the response, [content] is the un-awaited Promise of
    [response.text()], which [JSON.parse] turns into "[object Promise]"
    and rejects. *)
Lemma http_response_rejects inPath address h b w :
  protocol (url_parse address) <> Some (u "ng-cli:") ->
  hostname (url_parse address) = Some h -> h <> [] ->
  network w address = Response b ->
  store_fetch inPath address w = (Raise SyntaxError, w).
Proof.
  intros Hp Hh Hne Hn.
  unfold store_fetch, fetch_first_step; cbv zeta.
  rewrite (option_str_eqb_other _ _ Hp), Hh.
  destruct h as [| c h']; [contradiction |].
  cbv [option_str_truthy bind try_catch http_fetch ret fetch_relative_step
       fetch_literal_step lift throw].
  rewrite Hn, append_promise; reflexivity.
Qed.

(** A network error is caught: the first step yields [null]. *)
Lemma http_neterror_caught address h w :
  protocol (url_parse address) <> Some (u "ng-cli:") ->
  hostname (url_parse address) = Some h -> h <> [] ->
  network w address = NetError ->
  fetch_first_step address w = (Done CNull, w).
Proof.
  intros Hp Hh Hne Hn.
  unfold fetch_first_step; cbv zeta.
  rewrite (option_str_eqb_other _ _ Hp), Hh.
  destruct h as [| c h']; [contradiction |].
  cbv [option_str_truthy bind try_catch http_fetch ret].
  rewrite Hn; reflexivity.
Qed.

End Resolver.

Lemma bind_done {A B} (m : M A) (k : A -> M B) w a w' :
  m w = (Done a, w') -> bind m k w = k a w'.
Proof. intros E; unfold bind; rewrite E; reflexivity. Qed.

Lemma bind_raise {A B} (m : M A) (k : A -> M B) w e w' :
  m w = (Raise e, w') -> bind m k w = (Raise e, w').
Proof. intros E; unfold bind; rewrite E; reflexivity. Qed.

Lemma bind_exited {A B} (m : M A) (k : A -> M B) w c w' :
  m w = (Exited c, w') -> bind m k w = (Exited c, w').
Proof. intros E; unfold bind; rewrite E; reflexivity. Qed.

Lemma try_catch_raise {A} (m : M A) h w e w' :
  m w = (Raise e, w') -> try_catch m h w = h e w'.
Proof. intros E; unfold try_catch; rewrite E; reflexivity. Qed.

Lemma try_catch_exited {A} (m : M A) h w c w' :
  m w = (Exited c, w') -> try_catch m h w = (Exited c, w').
Proof. intros E; unfold try_catch; rewrite E; reflexivity. Qed.

Lemma ro_result {A} (m : M A) w o : reads_only m -> fst (m w) = o -> m w = (o, w).
Proof.
  intros Hro Hf; specialize (Hro w); destruct (m w) as [o' w']; simpl in *; subst; reflexivity.
Qed.

Section Steps.
Context `{NodePlatform}.

Lemma relative_step_absent inPath address w :
  path_isAbsolute address = true \/
  lookup_path (files w) (path_join [path_dirname inPath; address]) = None ->
  fetch_relative_step inPath address CNull w = (Done CNull, w).
Proof.
  intros [Ha | Hl]; unfold fetch_relative_step.
  - rewrite Ha; reflexivity.
  - destruct (negb (path_isAbsolute address)); [| reflexivity].
    cbv zeta; cbv [bind existsSync ret]; rewrite Hl; reflexivity.
Qed.

Lemma literal_step_absent address w :
  lookup_path (files w) address = None ->
  fetch_literal_step address CNull w = (Done CNull, w).
Proof.
  intros Hl; unfold fetch_literal_step; cbv [bind existsSync ret]; rewrite Hl; reflexivity.
Qed.

End Steps.

(** C2 (code_bug): for an address with a host and another scheme than
    [ng-cli:], a fetch that succeeds with a JSON body does not yield that
    schema: the resolver rejects with a SyntaxError, because
    [response.text()] is not awaited. *)
Theorem http_json_body_rejected `{NodePlatform} inPath address h t v w :
  protocol (url_parse address) <> Some (u "ng-cli:") ->
  hostname (url_parse address) = Some h -> h <> [] ->
  network w address = Response (BodyText t) ->
  JSON_parse t = Some v ->
  store_fetch inPath address w = (Raise SyntaxError, w).
Proof.
  intros Hp Hh Hne Hn _; exact (http_response_rejects inPath address h _ w Hp Hh Hne Hn).
Qed.

Lemma http_json_body_rejected_witness :
  store_fetch (u "/in/schema.json") w2_address w2_world = (Raise SyntaxError, w2_world).
Proof.
  apply (http_json_body_rejected (u "/in/schema.json") w2_address (u "example.com") w2_body
           (JObj [(u "type", JStr (u "object"))]) w2_world);
    try (vm_compute; reflexivity); vm_compute; discriminate.
Defined.

(** C3 (code_bug): a network error of the fetch step is caught and the
    resolver falls through to the later steps, ending with "absent" when
    they find nothing; a failing body is not caught: the resolver rejects
    with a SyntaxError. *)
Theorem http_failure_handling `{NodePlatform} inPath address h w :
  protocol (url_parse address) <> Some (u "ng-cli:") ->
  hostname (url_parse address) = Some h -> h <> [] ->
  (network w address = NetError ->
   path_isAbsolute address = true \/
   lookup_path (files w) (path_join [path_dirname inPath; address]) = None ->
   lookup_path (files w) address = None ->
   store_fetch inPath address w = (Done None, w)) /\
  (network w address = Response BodyError ->
   store_fetch inPath address w = (Raise SyntaxError, w)).
Proof.
  intros Hp Hh Hne; split.
  - intros Hn Hrel Hlit; unfold store_fetch.
    rewrite (bind_done _ _ _ _ _ (http_neterror_caught address h w Hp Hh Hne Hn)).
    rewrite (bind_done _ _ _ _ _ (relative_step_absent inPath address w Hrel)).
    rewrite (bind_done _ _ _ _ _ (literal_step_absent address w Hlit)).
    reflexivity.
  - intros Hn; exact (http_response_rejects inPath address h _ w Hp Hh Hne Hn).
Qed.

Lemma http_failure_handling_witness :
  (network (w3_world NetError) w2_address = NetError ->
   path_isAbsolute w2_address = true \/
   lookup_path (files (w3_world NetError))
     (path_join [path_dirname (u "/in/schema.json"); w2_address]) = None ->
   lookup_path (files (w3_world NetError)) w2_address = None ->
   store_fetch (u "/in/schema.json") w2_address (w3_world NetError) = (Done None, w3_world NetError)) /\
  (network (w3_world NetError) w2_address = Response BodyError ->
   store_fetch (u "/in/schema.json") w2_address (w3_world NetError) =
   (Raise SyntaxError, w3_world NetError)).
Proof.
  apply (http_failure_handling (u "/in/schema.json") w2_address (u "example.com") (w3_world NetError));
    try (vm_compute; reflexivity); vm_compute; discriminate.
Defined.

(** ** The driver *)

Section Driver.
Context `{NodePlatform} `{QuicktypeCore}.

Lemma ng_cli_missing_rejects inPath address h p w :
  protocol (url_parse address) = Some (u "ng-cli:") ->
  hostname (url_parse address) = Some h ->
  url_path (url_parse address) = Some p ->
  lookup_path (files w) (path_join [module_dirname; u "../packages/angular/cli"; h; p]) = None ->
  store_fetch inPath address w =
  (Raise (ENOENT (path_join [module_dirname; u "../packages/angular/cli"; h; p])), w).
Proof.
  intros Hp Hh Hq Hl.
  unfold store_fetch, fetch_first_step; cbv zeta.
  rewrite Hp, Hh, Hq; cbn [option_str_eqb]; rewrite jsstr_eqb_refl.
  cbv [bind readFileSync]; rewrite Hl; reflexivity.
Qed.

Lemma resolve_refs_raise inPath pre a post w e :
  Forall (fun a' => exists v, store_fetch inPath a' w = (Done (Some v), w)) pre ->
  store_fetch inPath a w = (Raise e, w) ->
  resolve_refs inPath (pre ++ a :: post) w = (Raise e, w).
Proof.
  intros Hpre Ha; induction Hpre as [| a' pre' [v Hv] _ IH]; simpl.
  - rewrite (bind_raise _ _ _ _ _ Ha); reflexivity.
  - rewrite (bind_done _ _ _ _ _ Hv); cbv beta iota.
    rewrite (bind_raise _ _ _ _ _ IH); reflexivity.
Qed.

Lemma argc_ok (argv : list jsstr) :
  (2 <= List.length argv <= 3)%nat ->
  ((List.length argv <? 2)%nat || (3 <? List.length argv)%nat) = false.
Proof.
  intros [H1 H2]; apply orb_false_iff; split; apply Nat.ltb_ge; lia.
Qed.

(** A run whose generation throws prints the error and exits with 127,
    the world otherwise untouched. *)
Lemma cli_generate_fails argv w e :
  (2 <= List.length argv <= 3)%nat ->
  fst (generate (nth 0 argv []) w) = Raise e ->
  cli argv w =
  (Exited 127, with_output w [Stderr (u "An error happened:"); Stderr (error_text e)]).
Proof.
  intros Hlen Hgen.
  pose proof (ro_result _ _ _ (generate_ro (nth 0 argv [])) Hgen) as Hg.
  unfold cli; rewrite (argc_ok argv Hlen).
  rewrite (bind_done _ _ w tt w) by reflexivity.
  rewrite (try_catch_raise _ _ w e w).
  - cbv [bind console_error emit process_exit with_output]; simpl.
    rewrite <- !app_assoc; reflexivity.
  - apply bind_raise; unfold main; apply bind_raise; exact Hg.
Qed.

End Driver.

Lemma bind_fst_done {A B} (m : M A) (k : A -> M B) w b :
  reads_only m -> fst (bind m k w) = Done b ->
  exists a, m w = (Done a, w) /\ fst (k a w) = Done b.
Proof.
  intros Hro Hb; pose proof (Hro w) as Hw; unfold bind in Hb.
  destruct (m w) as [[a | e | c] w'] eqn:E; simpl in *; subst; try discriminate.
  eauto.
Qed.

Lemma quicktype_ro `{NodePlatform} `{QuicktypeCore} inPath schema : reads_only (quicktype inPath schema).
Proof.
  unfold quicktype; apply bind_ro; [apply parseJSON_ro | intros root].
  apply bind_ro; [apply resolve_refs_ro | intros fr; apply ret_ro].
Qed.

(** C4: for an [ng-cli:] address whose file (the package directory joined
    with its host and path) does not exist, the resolver rejects with the
    read error and tries no later step; a run whose generation resolves that
    address exits with status 127. *)
Theorem ng_cli_missing_fatal `{NodePlatform} `{QuicktypeCore} inPath address h p w :
  protocol (url_parse address) = Some (u "ng-cli:") ->
  hostname (url_parse address) = Some h ->
  url_path (url_parse address) = Some p ->
  lookup_path (files w) (path_join [module_dirname; u "../packages/angular/cli"; h; p]) = None ->
  store_fetch inPath address w =
    (Raise (ENOENT (path_join [module_dirname; u "../packages/angular/cli"; h; p])), w) /\
  (forall argv content schema root pre post,
     (2 <= List.length argv <= 3)%nat ->
     nth 0 argv [] = inPath ->
     readFileSync inPath w = (Done content, w) ->
     appendDeprecatedDescription content = Ok schema ->
     JSON_parse schema = Some root ->
     schema_refs root = pre ++ address :: post ->
     Forall (fun a => exists v, store_fetch inPath a w = (Done (Some v), w)) pre ->
     fst (cli argv w) = Exited 127).
Proof.
  intros Hp Hh Hq Hl.
  pose proof (ng_cli_missing_rejects inPath address h p w Hp Hh Hq Hl) as Hf.
  split; [exact Hf |].
  intros argv content schema root pre post Hlen Hin Hread Happ Hparse Hrefs Hpre.
  set (err := ENOENT (path_join [module_dirname; u "../packages/angular/cli"; h; p])) in *.
  rewrite (cli_generate_fails argv w err); [reflexivity | exact Hlen |].
  rewrite Hin; unfold generate.
  rewrite (bind_done _ _ _ _ _ Hread).
  rewrite (bind_done _ _ w schema w) by (unfold lift; rewrite Happ; reflexivity).
  unfold quicktype.
  rewrite (bind_raise _ _ w err w); [reflexivity |].
  rewrite (bind_done _ _ w root w) by (unfold parseJSON; rewrite Hparse; reflexivity).
  rewrite Hrefs.
  rewrite (bind_raise _ _ w err w); [reflexivity |].
  exact (resolve_refs_raise inPath pre address post w err Hpre Hf).
Qed.

Lemma ng_cli_missing_fatal_witness :
  store_fetch w4_in w4_address w4_world =
    (Raise (ENOENT (path_join [module_dirname; u "../packages/angular/cli";
                               u "commands"; u "/missing.json"])), w4_world) /\
  (forall argv content schema root pre post,
     (2 <= List.length argv <= 3)%nat ->
     nth 0 argv [] = w4_in ->
     readFileSync w4_in w4_world = (Done content, w4_world) ->
     appendDeprecatedDescription content = Ok schema ->
     JSON_parse schema = Some root ->
     schema_refs root = pre ++ w4_address :: post ->
     Forall (fun a => exists v, store_fetch w4_in a w4_world = (Done (Some v), w4_world)) pre ->
     fst (cli argv w4_world) = Exited 127).
Proof.
  apply (ng_cli_missing_fatal w4_in w4_address (u "commands") (u "/missing.json") w4_world);
    vm_compute; reflexivity.
Defined.

Lemma ng_cli_missing_fatal_run :
  fst (cli [w4_in; u "out.ts"] w4_world) = Exited 127.
Proof. vm_compute; reflexivity. Qed.

Lemma in_with_output_write w l p c :
  Forall (fun ef => forall p' c', ef <> WriteFile p' c') l ->
  In (WriteFile p c) (output (with_output w l)) <-> In (WriteFile p c) (output w).
Proof.
  intros Hl; unfold with_output; simpl; rewrite in_app_iff; split; [| tauto].
  intros [Hi | Hi]; [exact Hi |].
  rewrite Forall_forall in Hl; destruct (Hl _ Hi p c eq_refl).
Qed.

(** C6: with fewer than 2 or more than 3 arguments the run prints
    ["Must include 2 or 3 arguments."] to standard error and exits with
    status 1; with output path ["-"] and a successful generation it prints
    the generated text to standard output and exits with status 0, the file
    system unchanged and nothing else emitted. *)
Theorem cli_argument_count_and_stdout `{NodePlatform} `{QuicktypeCore} w :
  (forall (argv : list jsstr), (List.length argv < 2 \/ 3 < List.length argv)%nat ->
     cli argv w = (Exited 1, with_output w [Stderr (u "Must include 2 or 3 arguments.")])) /\
  (forall (argv : list jsstr) text, (2 <= List.length argv <= 3)%nat ->
     nth 1 argv [] = u "-" ->
     fst (generate (nth 0 argv []) w) = Done text ->
     cli argv w = (Exited 0, with_output w [Stdout text])).
Proof.
  split.
  - intros argv Hbad.
    assert (Hc : ((List.length argv <? 2)%nat || (3 <? List.length argv)%nat) = true).
    { apply orb_true_iff; destruct Hbad; [left | right]; apply Nat.ltb_lt; lia. }
    unfold cli; rewrite Hc; cbv [bind console_error emit process_exit with_output]; reflexivity.
  - intros argv text Hlen H1 Hg.
    pose proof (ro_result _ _ _ (generate_ro (nth 0 argv [])) Hg) as Hg'.
    unfold cli; rewrite (argc_ok argv Hlen).
    rewrite (bind_done _ _ w tt w) by reflexivity.
    rewrite (try_catch_exited _ _ w 0 (with_output w [Stdout text])); [reflexivity |].
    apply bind_exited; unfold main; rewrite (bind_done _ _ _ _ _ Hg').
    rewrite H1, jsstr_eqb_refl.
    cbv [bind console_log emit process_exit with_output]; reflexivity.
Qed.

Lemma cli_argument_count_and_stdout_witness :
  cli [w6_in] w6_world =
    (Exited 1, with_output w6_world [Stderr (u "Must include 2 or 3 arguments.")]) /\
  cli [w6_in; u "-"] w6_world = (Exited 0, with_output w6_world [Stdout w6_text]).
Proof.
  destruct (cli_argument_count_and_stdout w6_world) as [Hbad Hdash]; split.
  - apply Hbad; simpl; lia.
  - apply Hdash; [simpl; lia | reflexivity | vm_compute; reflexivity].
Defined.

(** C7: when generation throws, the run exits with status 127 having
    written no file: the file system is unchanged and no write is among the
    effects it adds. *)
Theorem failed_generation_writes_nothing `{NodePlatform} `{QuicktypeCore} (argv : list jsstr) w e :
  (2 <= List.length argv <= 3)%nat ->
  fst (generate (nth 0 argv []) w) = Raise e ->
  fst (cli argv w) = Exited 127 /\
  files (snd (cli argv w)) = files w /\
  (forall p c, In (WriteFile p c) (output (snd (cli argv w))) <-> In (WriteFile p c) (output w)).
Proof.
  intros Hlen Hg; rewrite (cli_generate_fails argv w e Hlen Hg); simpl.
  split; [reflexivity | split; [reflexivity |]].
  intros p c; apply in_with_output_write.
  repeat constructor; intros p' c' Habs; discriminate Habs.
Qed.

Lemma failed_generation_writes_nothing_witness :
  fst (cli [u "/missing.json"; u "out.ts"] w7_world) = Exited 127 /\
  files (snd (cli [u "/missing.json"; u "out.ts"] w7_world)) = files w7_world /\
  (forall p c, In (WriteFile p c) (output (snd (cli [u "/missing.json"; u "out.ts"] w7_world)))
               <-> In (WriteFile p c) (output w7_world)).
Proof.
  apply (failed_generation_writes_nothing _ w7_world (ENOENT (u "/missing.json")));
    [simpl; lia | vm_compute; reflexivity].
Defined.

(** C8: a successful generation returns the fixed header (a newline, the
    two comment lines, a blank line), then the generator's lines joined in
    order with newlines, then the empty footer. *)
Theorem generated_text_layout `{NodePlatform} `{QuicktypeCore} inPath w text :
  fst (generate inPath w) = Done text ->
  exists content schema lines,
    readFileSync inPath w = (Done content, w) /\
    appendDeprecatedDescription content = Ok schema /\
    quicktype inPath schema w = (Done lines, w) /\
    text = [10] ++ u "// THIS FILE IS AUTOMATICALLY GENERATED. TO UPDATE THIS FILE YOU NEED TO CHANGE THE"
           ++ [10] ++ u "// CORRESPONDING JSON SCHEMA FILE, THEN RUN devkit-admin build (or bazel build ...)."
           ++ [10; 10] ++ join [10] lines ++ [].
Proof.
  intros Hg; unfold generate in Hg.
  apply bind_fst_done in Hg as [content [Hr Hg]]; [| apply readFileSync_ro].
  apply bind_fst_done in Hg as [schema [Hl Hg]]; [| apply lift_ro].
  apply bind_fst_done in Hg as [lines [Hq Hg]]; [| apply quicktype_ro].
  exists content, schema, lines.
  unfold lift in Hl; destruct (appendDeprecatedDescription content) as [s | e] eqn:E;
    [| discriminate Hl].
  injection Hl as ->; simpl in Hg; injection Hg as <-.
  repeat split; assumption.
Qed.

Lemma generated_text_layout_witness :
  exists content schema lines,
    readFileSync w6_in w6_world = (Done content, w6_world) /\
    appendDeprecatedDescription content = Ok schema /\
    quicktype w6_in schema w6_world = (Done lines, w6_world) /\
    w6_text = [10] ++ u "// THIS FILE IS AUTOMATICALLY GENERATED. TO UPDATE THIS FILE YOU NEED TO CHANGE THE"
           ++ [10] ++ u "// CORRESPONDING JSON SCHEMA FILE, THEN RUN devkit-admin build (or bazel build ...)."
           ++ [10; 10] ++ join [10] lines ++ [].
Proof.
  apply (generated_text_layout w6_in w6_world w6_text); vm_compute; reflexivity.
Defined.

(** ** Numbers, strings and values through JSON.stringify and JSON.parse *)

Lemma le2_shift q a p t :
  0 <= t -> 0 <= a + t -> - a <= t ->
  le2 q a p = (q * 2 ^ (a + t) <=? p * 2 ^ t).
Proof.
  intros Ht Hat Hna; unfold le2.
  set (A := Z.max a 0); set (B := Z.max (- a) 0).
  assert (E1 : a + t = A + (t - B)) by (unfold A, B; lia).
  assert (E2 : t = B + (t - B)) by (unfold A, B; lia).
  assert (HA : 0 <= A) by (unfold A; lia).
  assert (HB : 0 <= B) by (unfold B; lia).
  assert (Hd : 0 <= t - B) by (unfold B; lia).
  rewrite E1; rewrite E2 at 2.
  rewrite !Z.pow_add_r by lia.
  assert (0 < 2 ^ (t - B)) by (apply Z.pow_pos_nonneg; lia).
  destruct (Z.leb_spec (q * 2 ^ A) (p * 2 ^ B)), (Z.leb_spec (q * (2 ^ A * 2 ^ (t - B))) (p * (2 ^ B * 2 ^ (t - B)))); auto; nia.
Qed.

Lemma le2_mono q x y p :
  0 <= q -> x <= y -> le2 q y p = true -> le2 q x p = true.
Proof.
  intros Hq Hxy Hy.
  set (t := Z.max (- x) 0 + Z.max (- y) 0 + Z.abs x + Z.abs y).
  rewrite (le2_shift q x p t) by (unfold t; lia).
  rewrite (le2_shift q y p t) in Hy by (unfold t; lia).
  apply Z.leb_le in Hy; apply Z.leb_le.
  assert (E : y + t = (x + t) + (y - x)) by lia.
  rewrite E, Z.pow_add_r in Hy by (unfold t; lia).
  assert (1 <= 2 ^ (y - x)) by (change 1 with (2 ^ 0); apply Z.pow_le_mono_r; lia).
  assert (0 <= 2 ^ (x + t)) by (apply Z.pow_nonneg; lia).
  nia.
Qed.

Lemma log2_bounds x : 0 < x -> 2 ^ Z.log2 x <= x < 2 * 2 ^ Z.log2 x.
Proof.
  intros Hx; pose proof (Z.log2_spec x Hx) as [H1 H2].
  rewrite Z.pow_succ_r in H2 by (apply Z.log2_nonneg); lia.
Qed.

Lemma flog2_spec p q :
  0 < p -> 0 < q ->
  le2 q (flog2 p q) p = true /\ le2 q (flog2 p q + 1) p = false.
Proof.
  intros Hp Hq.
  pose proof (log2_bounds p Hp) as [Hp1 Hp2].
  pose proof (log2_bounds q Hq) as [Hq1 Hq2].
  pose proof (Z.log2_nonneg p); pose proof (Z.log2_nonneg q).
  set (lp := Z.log2 p) in *; set (lq := Z.log2 q) in *.
  set (P := 2 ^ lp) in *; set (Q := 2 ^ lq) in *.
  assert (Et : 2 ^ (lq + 2) = Q * 4) by (unfold Q; rewrite Z.pow_add_r by lia; reflexivity).
  unfold flog2; fold lp lq.
  destruct (le2 q (lp - lq) p) eqn:E; split; auto.
  - rewrite (le2_shift q (lp - lq + 1) p (lq + 2)) by lia.
    replace (lp - lq + 1 + (lq + 2)) with (lp + 3) by lia.
    rewrite Et, Z.pow_add_r by lia; fold P.
    apply Z.leb_gt; simpl; nia.
  - rewrite (le2_shift q (lp - lq - 1) p (lq + 2)) by lia.
    replace (lp - lq - 1 + (lq + 2)) with (lp + 1) by lia.
    rewrite Et, Z.pow_add_r by lia; fold P.
    apply Z.leb_le; simpl; nia.
  - replace (lp - lq - 1 + 1) with (lp - lq) by lia; exact E.
Qed.

Lemma flog2_unique p q x :
  0 < p -> 0 < q -> le2 q x p = true -> le2 q (x + 1) p = false -> flog2 p q = x.
Proof.
  intros Hp Hq Hx Hx1; destruct (flog2_spec p q Hp Hq) as [F1 F2].
  destruct (Z.lt_total (flog2 p q) x) as [Hlt | [Heq | Hgt]]; auto.
  - rewrite (le2_mono q (flog2 p q + 1) x p) in F2 by first [lia | assumption]; discriminate.
  - rewrite (le2_mono q (x + 1) (flog2 p q) p) in Hx1 by first [lia | assumption]; discriminate.
Qed.

Lemma le2_num_den q p e c :
  0 <= c -> le2 q (e + c) p = (q * 2 ^ Z.max e 0 * 2 ^ c <=? p * 2 ^ Z.max (- e) 0).
Proof.
  intros Hc; rewrite (le2_shift q (e + c) p (Z.max (- e) 0)) by lia.
  replace (e + c + Z.max (- e) 0) with (Z.max e 0 + c) by lia.
  rewrite Z.pow_add_r, Z.mul_assoc by lia; reflexivity.
Qed.

Lemma pow2_pos x : 0 <= x -> 0 < 2 ^ x.
Proof. intros; apply Z.pow_pos_nonneg; lia. Qed.

Lemma round_pos_canonical neg p q :
  0 <= p -> 0 < q ->
  round_pos neg p q = DInf neg \/
  exists m e, round_pos neg p q = DFin neg m e /\ canonical m e.
Proof.
  intros Hp0 Hq; unfold round_pos.
  destruct (Z.eqb_spec p 0) as [-> | Hpn].
  { right; exists 0, (-1074); split; [reflexivity | right; lia]. }
  assert (Hp : 0 < p) by lia.
  destruct (flog2_spec p q Hp Hq) as [F1 F2].
  cbv zeta.
  set (F := flog2 p q) in *.
  set (e := Z.max (F - 52) (-1074)).
  set (num := p * 2 ^ Z.max (- e) 0).
  set (den := q * 2 ^ Z.max e 0).
  assert (Hden : 0 < den) by (unfold den; pose proof (pow2_pos (Z.max e 0)); nia).
  assert (Hnum : 0 <= num) by (unfold num; pose proof (pow2_pos (Z.max (- e) 0)); nia).
  assert (Hup : num < den * 2 ^ 53).
  { assert (E : le2 q (e + 53) p = false).
    { destruct (le2 q (e + 53) p) eqn:E; auto.
      rewrite (le2_mono q (F + 1) (e + 53) p) in F2; [discriminate | lia | unfold e; lia | exact E]. }
    rewrite le2_num_den in E by lia; apply Z.leb_gt in E; exact E. }
  set (m0 := num / den).
  assert (Hm0up : m0 < 2 ^ 53) by (apply Z.div_lt_upper_bound; lia).
  assert (Hm0nn : 0 <= m0) by (apply Z.div_pos; lia).
  assert (Hm0lo : F - 52 >= -1074 -> 2 ^ 52 <= m0).
  { intros HF; apply Z.div_le_lower_bound; [exact Hden |].
    assert (Ee : e + 52 = F) by (unfold e; lia).
    rewrite <- Ee, le2_num_den in F1 by lia; apply Z.leb_le in F1; lia. }
  assert (Hm0sub : F - 52 < -1074 -> m0 < 2 ^ 52).
  { intros HF; apply Z.div_lt_upper_bound; [exact Hden |].
    assert (E : le2 q (e + 52) p = false).
    { destruct (le2 q (e + 52) p) eqn:E; auto.
      rewrite (le2_mono q (F + 1) (e + 52) p) in F2; [discriminate | lia | unfold e; lia | exact E]. }
    rewrite le2_num_den in E by lia; apply Z.leb_gt in E; exact E. }
  set (m := if (den <? 2 * (num mod den)) || ((2 * (num mod den) =? den) && Z.odd m0)
            then m0 + 1 else m0).
  assert (Hm : m0 <= m <= m0 + 1) by (unfold m; destruct (_ || _); lia).
  destruct (Z.eqb_spec m (2 ^ 53)) as [Hm53 | Hm53].
  - destruct (971 <? e + 1) eqn:Ho; [left; reflexivity | right].
    apply Z.ltb_ge in Ho; exists (2 ^ 52), (e + 1); split; [reflexivity |].
    left; unfold e in *; lia.
  - destruct (971 <? e) eqn:Ho; [left; reflexivity | right].
    apply Z.ltb_ge in Ho; exists m, e; split; [reflexivity |].
    destruct (Z_lt_le_dec (F - 52) (-1074)) as [Hs | Hn].
    + specialize (Hm0sub Hs).
      destruct (Z.eq_dec m (2 ^ 52)); [left | right]; unfold e in *; lia.
    + specialize (Hm0lo (Z.le_ge _ _ Hn)); left; unfold e in *; lia.
Qed.

Lemma round_pos_sign neg p q :
  round_pos neg p q =
  match round_pos false p q with DFin _ m e => DFin neg m e | DInf _ => DInf neg end.
Proof.
  unfold round_pos; destruct (p =? 0); [reflexivity |]; cbv zeta.
  destruct (if _ =? 2 ^ 53 then _ else _) as [m e]; destruct (971 <? e); reflexivity.
Qed.

Lemma round_pos_exact neg p q m e :
  0 < q -> 0 < m -> canonical m e ->
  p * 2 ^ Z.max (- e) 0 = m * (q * 2 ^ Z.max e 0) ->
  round_pos neg p q = DFin neg m e.
Proof.
  intros Hq Hm Hc Heq.
  pose proof (pow2_pos (Z.max e 0) ltac:(lia)) as He1.
  pose proof (pow2_pos (Z.max (- e) 0) ltac:(lia)) as He2.
  assert (Hp : 0 < p) by nia.
  pose proof (log2_bounds m Hm) as [Hl1 Hl2].
  pose proof (Z.log2_nonneg m) as Hl0.
  assert (HF : flog2 p q = Z.log2 m + e).
  { apply flog2_unique; auto.
    - rewrite Z.add_comm, le2_num_den by lia; apply Z.leb_le; nia.
    - replace (Z.log2 m + e + 1) with (e + (Z.log2 m + 1)) by lia.
      rewrite le2_num_den by lia; apply Z.leb_gt.
      rewrite Z.pow_add_r by lia; change (2 ^ 1) with 2; nia. }
  assert (Hlm : (2 ^ 52 <= m -> Z.log2 m = 52) /\ (m < 2 ^ 52 -> Z.log2 m < 52)).
  { split; intros H.
    - apply Z.log2_unique; [lia |]; unfold canonical in Hc; split; [exact H |].
      change (Z.succ 52) with 53; lia.
    - apply Z.log2_lt_pow2; lia. }
  assert (He : Z.max (flog2 p q - 52) (-1074) = e).
  { rewrite HF; unfold canonical in Hc.
    destruct Hc as [[H1 H2] | [H1 H2]].
    - rewrite (proj1 Hlm (proj1 H1)); lia.
    - pose proof (proj2 Hlm (proj2 H1)); lia. }
  unfold round_pos; cbv zeta; rewrite He.
  replace (p =? 0) with false by (symmetry; apply Z.eqb_neq; lia).
  rewrite Heq, Z.div_mul, Z.mod_mul by lia.
  replace (q * 2 ^ Z.max e 0 <? 2 * 0) with false by (symmetry; apply Z.ltb_ge; lia).
  replace (2 * 0 =? q * 2 ^ Z.max e 0) with false by (symmetry; apply Z.eqb_neq; lia).
  cbn [orb andb]; unfold canonical in Hc.
  replace (m =? 2 ^ 53) with false by (symmetry; apply Z.eqb_neq; lia).
  replace (971 <? e) with false by (symmetry; apply Z.ltb_ge; lia).
  reflexivity.
Qed.

Lemma fold_digits_shift ds a :
  fold_left (fun acc d => acc * 10 + d) ds a =
  a * 10 ^ Z.of_nat (List.length ds) + fold_left (fun acc d => acc * 10 + d) ds 0.
Proof.
  revert a; induction ds as [| d r IH]; intros a.
  - simpl; lia.
  - cbn [fold_left List.length]; rewrite IH; symmetry; rewrite IH.
    rewrite Nat2Z.inj_succ, Z.pow_succ_r by lia; ring.
Qed.

Lemma dv_cons d r :
  digits_value (d :: r) = d * 10 ^ Z.of_nat (List.length r) + digits_value r.
Proof. unfold digits_value; simpl; rewrite fold_digits_shift; lia. Qed.

Lemma dv_app a b :
  digits_value (a ++ b) = digits_value a * 10 ^ Z.of_nat (List.length b) + digits_value b.
Proof. unfold digits_value; rewrite fold_left_app, fold_digits_shift; reflexivity. Qed.

Lemma dv_range ds :
  Forall is_dig ds -> 0 <= digits_value ds < 10 ^ Z.of_nat (List.length ds).
Proof.
  induction 1 as [| d r Hd Hr IH]; [simpl; unfold digits_value; simpl; lia |].
  rewrite dv_cons; simpl List.length; rewrite Nat2Z.inj_succ, Z.pow_succ_r by lia.
  unfold is_dig in Hd; pose proof (Z.pow_nonneg 10 (Z.of_nat (List.length r))); nia.
Qed.

Lemma dv_lead d r :
  is_dig d -> 1 <= d -> Forall is_dig r ->
  10 ^ Z.of_nat (List.length r) <= digits_value (d :: r) < 10 ^ Z.of_nat (List.length (d :: r)).
Proof.
  intros Hd Hd1 Hr; split.
  - rewrite dv_cons; pose proof (dv_range r Hr); nia.
  - apply dv_range; constructor; auto.
Qed.

Lemma dv_zeros_left n ds : digits_value (repeat 0 n ++ ds) = digits_value ds.
Proof.
  rewrite dv_app; replace (digits_value (repeat 0 n)) with 0; [lia |].
  induction n as [| n IH]; [reflexivity |].
  simpl repeat; rewrite dv_cons, <- IH; lia.
Qed.

Lemma dv_zeros_right ds n :
  digits_value (ds ++ repeat 0 n) = digits_value ds * 10 ^ Z.of_nat n.
Proof.
  rewrite dv_app, repeat_length.
  replace (digits_value (repeat 0 n)) with 0; [lia |].
  induction n as [| n IH]; [reflexivity |].
  simpl repeat; rewrite dv_cons, <- IH; lia.
Qed.

Lemma log2_div10 z : 10 <= z -> Z.log2 (z / 10) < Z.log2 z.
Proof.
  intros Hz.
  assert (H1 : 0 < z / 10) by (apply Z.div_str_pos; lia).
  pose proof (log2_bounds (z / 10) H1) as [Hl _].
  assert (2 ^ (Z.log2 (z / 10) + 1) <= z).
  { rewrite Z.pow_add_r by (try apply Z.log2_nonneg; lia).
    pose proof (Z.mul_div_le z 10); lia. }
  apply Z.log2_le_pow2 in H; [lia | lia].
Qed.

Lemma dec_digits_aux_spec fuel z acc :
  0 < z -> Z.log2 z < Z.of_nat fuel ->
  exists d r, dec_digits_aux fuel z acc = d :: r ++ acc /\ 1 <= d /\ is_dig d /\
              Forall is_dig r /\ digits_value (d :: r) = z.
Proof.
  revert z acc; induction fuel as [| f IH]; intros z acc Hz Hl.
  - pose proof (Z.log2_nonneg z); lia.
  - simpl; destruct (Z.ltb_spec z 10).
    + exists z, []; refine (conj eq_refl (conj _ (conj _ (conj (Forall_nil _) _)))); unfold is_dig; try lia.
      unfold digits_value; reflexivity.
    + destruct (IH (z / 10) (z mod 10 :: acc)) as (d & r & E & Hd1 & Hd & Hr & Hv).
      * apply Z.div_str_pos; lia.
      * pose proof (log2_div10 z); lia.
      * exists d, (r ++ [z mod 10]); rewrite E, <- app_assoc.
        refine (conj eq_refl (conj Hd1 (conj Hd (conj _ _)))).
        -- apply Forall_app; split; auto; constructor; [unfold is_dig; pose proof (Z.mod_pos_bound z 10); lia | auto].
        -- rewrite app_comm_cons, dv_app, Hv; simpl List.length.
           unfold digits_value; simpl. pose proof (Z.div_mod z 10); lia.
Qed.

Lemma dec_digits_spec z :
  0 < z ->
  exists d r, dec_digits z = d :: r /\ 1 <= d /\ is_dig d /\ Forall is_dig r /\
              digits_value (d :: r) = z.
Proof.
  intros Hz; destruct (dec_digits_aux_spec (S (Z.to_nat (Z.log2 z))) z [] Hz) as (d & r & E & H).
  - pose proof (Z.log2_nonneg z); lia.
  - exists d, r; rewrite app_nil_r in E; split; [exact E | exact H].
Qed.

Lemma digits_len_unique a b s :
  1 <= a -> 1 <= b -> 10 ^ (a - 1) <= s < 10 ^ a -> 10 ^ (b - 1) <= s < 10 ^ b -> a = b.
Proof.
  intros Ha Hb [Ha1 Ha2] [Hb1 Hb2].
  destruct (Z.lt_total a b) as [H | [H | H]]; auto.
  - assert (10 ^ a <= 10 ^ (b - 1)) by (apply Z.pow_le_mono_r; lia); lia.
  - assert (10 ^ b <= 10 ^ (a - 1)) by (apply Z.pow_le_mono_r; lia); lia.
Qed.

Lemma dec_digits_len z k :
  1 <= k -> 10 ^ (k - 1) <= z < 10 ^ k ->
  exists d r, dec_digits z = d :: r /\ 1 <= d /\ is_dig d /\ Forall is_dig r /\
              digits_value (d :: r) = z /\ Z.of_nat (List.length (d :: r)) = k.
Proof.
  intros Hk Hz.
  assert (Hz0 : 0 < z) by (pose proof (Z.pow_pos_nonneg 10 (k - 1)); lia).
  destruct (dec_digits_spec z Hz0) as (d & r & E & Hd1 & Hd & Hr & Hv).
  exists d, r; refine (conj E (conj Hd1 (conj Hd (conj Hr (conj Hv _))))).
  pose proof (dv_lead d r Hd Hd1 Hr) as Hb; rewrite Hv in Hb.
  simpl List.length in *; rewrite Nat2Z.inj_succ in *.
  apply (digits_len_unique _ k z); try lia.
  replace (Z.succ (Z.of_nat (List.length r)) - 1) with (Z.of_nat (List.length r)) by lia; lia.
Qed.

Lemma zdigits_spec z :
  0 < z -> 1 <= zdigits z /\ 10 ^ (zdigits z - 1) <= z < 10 ^ zdigits z.
Proof.
  intros Hz; destruct (dec_digits_spec z Hz) as (d & r & E & Hd1 & Hd & Hr & Hv).
  unfold zdigits; rewrite E.
  pose proof (dv_lead d r Hd Hd1 Hr) as Hb; rewrite Hv in Hb.
  simpl List.length in *; rewrite Nat2Z.inj_succ in *.
  replace (Z.succ (Z.of_nat (List.length r)) - 1) with (Z.of_nat (List.length r)) by lia; lia.
Qed.

Lemma span_digit_chars ds rest :
  Forall is_dig ds ->
  (match rest with [] => True | c :: _ => is_digit c = false end) ->
  span_digits (digit_chars ds ++ rest) = (ds, rest).
Proof.
  intros Hds Hr; induction Hds as [| d ds Hd Hds IH].
  - destruct rest as [| c r]; [reflexivity |]; simpl; rewrite Hr; reflexivity.
  - change (digit_chars (d :: ds) ++ rest) with ((48 + d) :: (digit_chars ds ++ rest)).
    cbn [span_digits]; unfold is_dig in Hd.
    replace (is_digit (48 + d)) with true by (symmetry; unfold is_digit; apply andb_true_iff; split; apply Z.leb_le; lia).
    rewrite IH; replace (48 + d - 48) with d by lia; reflexivity.
Qed.

#[local] Arguments digit_chars : simpl never.

Lemma digit_chars_cons d r : digit_chars (d :: r) = (48 + d) :: digit_chars r.
Proof. reflexivity. Qed.

Lemma digit_chars_app a b : digit_chars (a ++ b) = digit_chars a ++ digit_chars b.
Proof. unfold digit_chars; apply map_app. Qed.

Lemma delim_nodigit rest :
  delim rest -> match rest with [] => True | c :: _ => is_digit c = false end.
Proof. destruct rest as [| c r]; simpl; [auto |]; intros [-> | [-> | ->]]; reflexivity. Qed.

Lemma parse_exponent_text ex rest :
  exp_ok ex -> delim rest -> parse_exponent (exp_text ex ++ rest) = Some (exp_value ex, rest).
Proof.
  intros Hex Hrest; destruct ex as [[en eds] |]; simpl.
  - destruct Hex as [Hne Hds].
    assert (E : (if (if en then 45 else 43) =? 43 then (1, digit_chars eds ++ rest)
                 else if (if en then 45 else 43) =? 45 then (-1, digit_chars eds ++ rest)
                 else (1, (if en then 45 else 43) :: digit_chars eds ++ rest))
                = (if en then -1 else 1, digit_chars eds ++ rest)) by (destruct en; reflexivity).
    rewrite E, (span_digit_chars eds rest Hds (delim_nodigit rest Hrest)).
    destruct eds; [congruence | reflexivity].
  - destruct rest as [| c r]; [reflexivity |]; simpl in Hrest.
    destruct Hrest as [-> | [-> | ->]]; reflexivity.
Qed.

Lemma sign_step (neg : bool) T :
  (forall c r, T = c :: r -> c <> 45) -> T <> [] ->
  match (if neg then [45] else []) ++ T with
  | c :: r => if c =? 45 then (true, r) else (false, (if neg then [45] else []) ++ T)
  | [] => (false, (if neg then [45] else []) ++ T)
  end = (neg, T).
Proof.
  intros H Hne; destruct neg; [reflexivity |]; simpl.
  destruct T as [| c r]; [congruence |].
  rewrite (proj2 (Z.eqb_neq c 45) (H c r eq_refl)); reflexivity.
Qed.

Lemma int_step ids R :
  int_ok ids -> match R with [] => True | c :: _ => is_digit c = false end ->
  match digit_chars ids ++ R with
  | c :: r => if c =? 48 then Some ([0], r)
              else if is_digit c then Some (span_digits (digit_chars ids ++ R)) else None
  | [] => None
  end = Some (ids, R).
Proof.
  intros [-> | (d & r & -> & Hd1 & Hd & Hr)] HR; [reflexivity |].
  rewrite digit_chars_cons; cbn [app].
  unfold is_dig in Hd.
  rewrite (proj2 (Z.eqb_neq (48 + d) 48)) by lia.
  replace (is_digit (48 + d)) with true
    by (symmetry; unfold is_digit; apply andb_true_iff; split; apply Z.leb_le; lia).
  change ((48 + d) :: digit_chars r ++ R) with (digit_chars (d :: r) ++ R).
  rewrite span_digit_chars; [reflexivity | | exact HR].
  constructor; [unfold is_dig; lia | exact Hr].
Qed.

Lemma frac_step fs ex rest :
  Forall is_dig fs -> exp_ok ex -> delim rest ->
  match frac_text fs ++ exp_text ex ++ rest with
  | c :: r => if c =? 46 then
                let '(fs, r2) := span_digits r in
                match fs with [] => None | _ => Some (fs, r2) end
              else Some ([], frac_text fs ++ exp_text ex ++ rest)
  | [] => Some ([], frac_text fs ++ exp_text ex ++ rest)
  end = Some (fs, exp_text ex ++ rest).
Proof.
  intros Hfs Hex Hrest; destruct fs as [| f fs'].
  - destruct ex as [[en eds] |]; [reflexivity |]; simpl.
    destruct rest as [| c r]; [reflexivity |]; simpl in Hrest.
    destruct Hrest as [-> | [-> | ->]]; reflexivity.
  - cbn [frac_text app]; rewrite Z.eqb_refl.
    rewrite span_digit_chars; [reflexivity | exact Hfs |].
    destruct ex as [[en eds] |]; [reflexivity |]; apply delim_nodigit; exact Hrest.
Qed.

Lemma parse_number_gen (neg : bool) ids fs ex rest :
  int_ok ids -> Forall is_dig fs -> exp_ok ex -> delim rest ->
  parse_number ((if neg then [45] else []) ++ digit_chars ids ++ frac_text fs ++ exp_text ex ++ rest) =
  Some (number_value neg (digits_value (ids ++ fs)) (exp_value ex - Z.of_nat (List.length fs)), rest).
Proof.
  intros Hint Hfs Hex Hrest.
  assert (Hnd1 : match frac_text fs ++ exp_text ex ++ rest with [] => True | c :: _ => is_digit c = false end).
  { destruct fs; [| reflexivity].
    destruct ex as [[en eds] |]; [reflexivity |]; apply delim_nodigit; exact Hrest. }
  unfold parse_number.
  rewrite sign_step.
  - cbn beta iota; rewrite int_step by assumption.
    cbn beta iota; rewrite frac_step by assumption.
    cbn beta iota; rewrite parse_exponent_text by assumption.
    reflexivity.
  - destruct Hint as [-> | (d & r & -> & Hd1 & Hd & Hr)]; intros c r' E;
      [change (digit_chars [0]) with [48] in E | rewrite digit_chars_cons in E];
      apply (f_equal (hd 0)) in E; cbn [hd app] in E; unfold is_dig in *; lia.
  - destruct Hint as [-> | (d & r & -> & _)]; discriminate.
Qed.

Lemma number_value_eq (neg : bool) M E M' E' :
  rat_of M E = rat_of M' E' -> number_value neg M E = number_value neg M' E'.
Proof. intros H; unfold number_value; rewrite H; reflexivity. Qed.

Lemma digit_chars_repeat j : digit_chars (repeat 0 j) = repeat 48 j.
Proof. induction j as [| j IH]; [reflexivity |]; simpl repeat; rewrite digit_chars_cons, IH; reflexivity. Qed.

Lemma Forall_firstn {A} (P : A -> Prop) i l : Forall P l -> Forall P (firstn i l).
Proof. intros H; revert i; induction H as [| x l Hx Hl IH]; intros [| i]; simpl; auto. Qed.

Lemma Forall_skipn {A} (P : A -> Prop) i l : Forall P l -> Forall P (skipn i l).
Proof. intros H; revert i; induction H as [| x l Hx Hl IH]; intros [| i]; simpl; auto. Qed.

Lemma frac_text_cons fs : fs <> [] -> frac_text fs = 46 :: digit_chars fs.
Proof. destruct fs; [congruence | reflexivity]. Qed.

Lemma format_parse (neg : bool) k n s rest :
  1 <= k -> 10 ^ (k - 1) <= s < 10 ^ k -> delim rest ->
  parse_number ((if neg then [45] else []) ++ format_dec k n s ++ rest) =
  Some (number_value neg s (n - k), rest).
Proof.
  intros Hk Hs Hrest.
  destruct (dec_digits_len s k Hk Hs) as (d & r & Eds & Hd1 & Hd & Hr & Hv & Hlen).
  assert (HD : Forall is_dig (d :: r)) by (constructor; auto).
  unfold format_dec; cbv zeta; rewrite Eds.
  destruct ((k <=? n) && (n <=? 21)) eqn:C1.
  - (* integer with trailing zeros *)
    apply andb_true_iff in C1 as [C1a C1b]; apply Z.leb_le in C1a, C1b.
    set (j := Z.to_nat (n - k)).
    replace ((digit_chars (d :: r) ++ repeat 48 j) ++ rest)
      with (digit_chars ((d :: r) ++ repeat 0 j) ++ frac_text [] ++ exp_text None ++ rest)
      by (rewrite digit_chars_app, digit_chars_repeat; cbn [frac_text exp_text app];
          rewrite ?app_assoc; reflexivity).
    rewrite parse_number_gen; [| right; exists d, (r ++ repeat 0 j) | constructor | exact I | exact Hrest].
    + f_equal; f_equal; apply number_value_eq.
      rewrite app_nil_r, dv_zeros_right, Hv; unfold rat_of, j.
      rewrite Z2Nat.id by lia.
      replace (0 <=? 0 - Z.of_nat (List.length (@nil Z))) with true by reflexivity.
      replace (0 <=? n - k) with true by (symmetry; apply Z.leb_le; lia).
      simpl; f_equal; lia.
    + split; [reflexivity |]; split; [exact Hd1 | split; [exact Hd |]].
      apply Forall_app; split; [exact Hr | apply Forall_forall; intros x Hx; apply repeat_spec in Hx; subst; unfold is_dig; lia].
  - destruct ((0 <? n) && (n <=? 21)) eqn:C2.
    + (* a decimal point inside the digits *)
      apply andb_true_iff in C2 as [C2a C2b]; apply Z.ltb_lt in C2a; apply Z.leb_le in C2b.
      assert (Hnk : n < k) by (apply andb_false_iff in C1 as [C1 | C1]; apply Z.leb_gt in C1; lia).
      assert (Hi : (1 <= Z.to_nat n < List.length (d :: r))%nat) by lia.
      destruct (Z.to_nat n) as [| i'] eqn:Ei; [lia |].
      remember (skipn i' r) as fs eqn:Efs.
      destruct fs as [| f fs'].
      { assert (List.length (skipn i' r) = 0%nat) by (rewrite <- Efs; reflexivity).
        rewrite length_skipn in H; simpl List.length in Hi; lia. }
      replace ((firstn (S i') (digit_chars (d :: r)) ++ [46] ++ skipn (S i') (digit_chars (d :: r))) ++ rest)
        with (digit_chars (d :: firstn i' r) ++ frac_text (f :: fs') ++ exp_text None ++ rest).
      2: { unfold digit_chars; rewrite firstn_map, skipn_map; cbn [firstn skipn map].
           rewrite <- Efs, <- app_assoc; cbn [frac_text exp_text app]; rewrite ?app_assoc; reflexivity. }
      rewrite parse_number_gen;
        [| right; exists d, (firstn i' r); split; [reflexivity | split; [exact Hd1 | split; [exact Hd | apply Forall_firstn; exact Hr]]]
         | rewrite Efs; apply Forall_skipn; exact Hr | exact I | exact Hrest].
      replace (digits_value ((d :: firstn i' r) ++ f :: fs')) with s
        by (rewrite Efs, <- app_comm_cons, firstn_skipn; symmetry; exact Hv).
      replace (exp_value None - Z.of_nat (List.length (f :: fs'))) with (n - k); [reflexivity |].
      rewrite Efs, length_skipn; simpl List.length in *; cbn [exp_value]; lia.
    + destruct ((-6 <? n) && (n <=? 0)) eqn:C3.
      * (* 0.000ddd *)
        apply andb_true_iff in C3 as [C3a C3b]; apply Z.ltb_lt in C3a; apply Z.leb_le in C3b.
        set (m := Z.to_nat (- n)).
        replace (([48; 46] ++ repeat 48 m ++ digit_chars (d :: r)) ++ rest)
          with (digit_chars [0] ++ frac_text (repeat 0 m ++ d :: r) ++ exp_text None ++ rest)
          by (rewrite frac_text_cons by (destruct m; discriminate);
              rewrite digit_chars_app, digit_chars_repeat; cbn [app exp_text];
              change (digit_chars [0]) with [48]; cbn [app]; rewrite ?app_assoc; reflexivity).
        rewrite parse_number_gen; [| left; reflexivity | | exact I | exact Hrest].
        -- change ([0] ++ repeat 0 m ++ d :: r) with (repeat 0 (S m) ++ d :: r).
           rewrite dv_zeros_left, Hv, length_app, repeat_length; cbn [exp_value].
           replace (0 - Z.of_nat (m + List.length (d :: r))) with (n - k) by (unfold m; lia).
           reflexivity.
        -- apply Forall_app; split; [| exact HD].
           apply Forall_forall; intros x Hx; apply repeat_spec in Hx; subst; unfold is_dig; lia.
      * (* exponent form *)
        assert (Hn1 : 0 < Z.abs (n - 1)).
        { apply andb_false_iff in C2 as [C2 | C2]; [apply Z.ltb_ge in C2 | apply Z.leb_gt in C2];
            apply andb_false_iff in C3 as [C3 | C3]; try apply Z.ltb_ge in C3; try apply Z.leb_gt in C3; lia. }
        destruct (dec_digits_spec (Z.abs (n - 1)) Hn1) as (e1 & er & Ee & He1 & He & Her & Hev).
        assert (Hex : [101; if n - 1 <? 0 then 45 else 43] ++ digit_chars (dec_digits (Z.abs (n - 1)))
                      = exp_text (Some (n - 1 <? 0, e1 :: er))) by (rewrite Ee; reflexivity).
        assert (Hexv : exp_value (Some (n - 1 <? 0, e1 :: er)) = n - 1).
        { cbn [exp_value]; rewrite Hev; destruct (Z.ltb_spec (n - 1) 0); lia. }
        assert (Hexok : exp_ok (Some (n - 1 <? 0, e1 :: er))).
        { split; [discriminate | constructor; auto]. }
        rewrite Hex; destruct (Z.eqb_spec k 1) as [Hk1 | Hk1].
        -- destruct r as [| r0 r']; [| simpl List.length in Hlen; lia].
           replace ((digit_chars [d] ++ exp_text (Some (n - 1 <? 0, e1 :: er))) ++ rest)
             with (digit_chars [d] ++ frac_text [] ++ exp_text (Some (n - 1 <? 0, e1 :: er)) ++ rest)
             by (rewrite app_assoc; reflexivity).
           rewrite parse_number_gen; [| right; exists d, []; auto | constructor | exact Hexok | exact Hrest].
           rewrite app_nil_r, Hv, Hexv; simpl List.length; f_equal; f_equal; f_equal; lia.
        -- destruct r as [| r0 r']; [simpl List.length in Hlen; lia |].
           replace ((firstn 1 (digit_chars (d :: r0 :: r')) ++ [46] ++ skipn 1 (digit_chars (d :: r0 :: r'))
                     ++ exp_text (Some (n - 1 <? 0, e1 :: er))) ++ rest)
             with (digit_chars [d] ++ frac_text (r0 :: r') ++ exp_text (Some (n - 1 <? 0, e1 :: er)) ++ rest)
             by (cbn [frac_text]; rewrite ?app_assoc; reflexivity).
           rewrite parse_number_gen; [| right; exists d, []; auto | exact Hr | exact Hexok | exact Hrest].
           change ([d] ++ r0 :: r') with (d :: r0 :: r'); rewrite Hv, Hexv.
           f_equal; f_equal; f_equal; simpl List.length in *; lia.
Qed.

Lemma double_eqb_eq x y : double_eqb x y = true -> x = y.
Proof.
  destruct x as [n1 m1 e1 | n1], y as [n2 m2 e2 | n2]; simpl; try discriminate.
  - intros H; apply andb_true_iff in H as [H H3]; apply andb_true_iff in H as [H1 H2].
    apply Bool.eqb_prop in H1; apply Z.eqb_eq in H2; apply Z.eqb_eq in H3; subst; reflexivity.
  - intros H; apply Bool.eqb_prop in H; subst; reflexivity.
Qed.

Lemma valid_ok x k n s : 1 <= k -> valid x k n s = true -> dec_ok x (k, n, s).
Proof.
  unfold valid; intros Hk H.
  apply andb_true_iff in H as [H H3]; apply andb_true_iff in H as [H1 H2].
  apply Z.leb_le in H1; apply Z.ltb_lt in H2; apply double_eqb_eq in H3.
  unfold dec_ok; auto.
Qed.

Lemma candidate_ok x p q n0 k c :
  1 <= k -> candidate x p q n0 k = Some c -> dec_ok x c.
Proof.
  intros Hk; unfold candidate; cbv zeta.
  match goal with
  | |- (if valid x k ?a ?b then _ else if valid x k ?a' ?b' then _ else _) = _ -> _ =>
      destruct (valid x k a b) eqn:V1; [| destruct (valid x k a' b') eqn:V2]
  end; try discriminate; intros E; injection E as <-; apply valid_ok; auto.
Qed.

Lemma search_ok x p q n0 ks c :
  Forall (fun k => 1 <= k) ks -> search x p q n0 ks = Some c -> dec_ok x c.
Proof.
  induction 1 as [| k ks Hk Hks IH]; simpl; [discriminate |].
  destruct (candidate x p q n0 k) as [c' |] eqn:E; [| exact IH].
  intros E'; injection E' as <-; exact (candidate_ok x p q n0 k c' Hk E).
Qed.

Lemma exact_dec_ok m e : canonical m e -> 0 < m -> dec_ok (DFin false m e) (exact_dec m e).
Proof.
  intros Hc Hm; unfold exact_dec; cbv zeta.
  set (s := m * 2 ^ Z.max e 0 * 5 ^ Z.max (- e) 0).
  assert (Hs : 0 < s).
  { unfold s; pose proof (pow2_pos (Z.max e 0) ltac:(lia));
    pose proof (Z.pow_pos_nonneg 5 (Z.max (- e) 0) ltac:(lia) ltac:(lia)); nia. }
  destruct (zdigits_spec s Hs) as [Hk Hb].
  unfold dec_ok; split; [exact Hk | split; [exact Hb |]].
  replace (zdigits s + Z.min e 0 - zdigits s) with (Z.min e 0) by lia.
  unfold rat_of; destruct (Z.leb_spec 0 (Z.min e 0)).
  - apply round_pos_exact; [lia | exact Hm | exact Hc |].
    replace (Z.max (- e) 0) with 0 by lia; replace (Z.min e 0) with 0 by lia.
    unfold s; replace (Z.max (- e) 0) with 0 by lia; rewrite !Z.pow_0_r; ring.
  - apply round_pos_exact; [apply Z.pow_pos_nonneg; lia | exact Hm | exact Hc |].
    replace (Z.max e 0) with 0 by lia; replace (- Z.min e 0) with (Z.max (- e) 0) by lia.
    unfold s; replace (Z.max e 0) with 0 by lia.
    change 10 with (5 * 2); rewrite Z.pow_mul_l; simpl; ring.
Qed.

Lemma shortest_ok m e : canonical m e -> 0 < m -> dec_ok (DFin false m e) (shortest m e).
Proof.
  intros Hc Hm; unfold shortest, dval.
  destruct (search _ _ _ _ _) as [c |] eqn:E.
  - refine (search_ok _ _ _ _ (map Z.of_nat (seq 1 17)) _ _ E).
    simpl; repeat (apply Forall_cons; [lia |]); apply Forall_nil.
  - apply exact_dec_ok; assumption.
Qed.

Lemma number_roundtrip (neg : bool) m e rest :
  canonical m e -> 0 < m -> delim rest ->
  parse_number (number_to_string (DFin neg m e) ++ rest) = Some (DFin neg m e, rest).
Proof.
  intros Hc Hm Hrest; unfold number_to_string.
  replace (m =? 0) with false by (symmetry; apply Z.eqb_neq; lia).
  pose proof (shortest_ok m e Hc Hm) as Hok.
  destruct (shortest m e) as [[k n] s]; destruct Hok as (Hk & Hs & Hr).
  rewrite <- app_assoc, format_parse by assumption.
  unfold number_value; destruct (rat_of s (n - k)) as [p q].
  rewrite round_pos_sign, Hr; reflexivity.
Qed.

Lemma zero_roundtrip rest :
  delim rest -> parse_number (u "0" ++ rest) = Some (DFin false 0 (-1074), rest).
Proof.
  intros Hrest.
  change (u "0" ++ rest) with ((if false then [45] else []) ++ digit_chars [0] ++ frac_text [] ++ exp_text None ++ rest).
  rewrite parse_number_gen; [reflexivity | left; reflexivity | constructor | exact I | exact Hrest].
Qed.

Lemma hex_value_char d : 0 <= d < 16 -> hex_value (hex_char d) = Some d.
Proof.
  intros Hd; unfold hex_char, hex_value, is_digit.
  destruct (Z.ltb_spec d 10).
  - replace ((48 <=? 48 + d) && (48 + d <=? 57)) with true
      by (symmetry; apply andb_true_iff; split; apply Z.leb_le; lia).
    f_equal; lia.
  - replace ((48 <=? 87 + d) && (87 + d <=? 57)) with false
      by (symmetry; apply andb_false_iff; right; apply Z.leb_gt; lia).
    replace ((97 <=? 87 + d) && (87 + d <=? 102)) with true
      by (symmetry; apply andb_true_iff; split; apply Z.leb_le; lia).
    f_equal; lia.
Qed.

Lemma hex_digits_sum c :
  0 <= c < 65536 ->
  c / 4096 mod 16 * 4096 + c / 256 mod 16 * 256 + c / 16 mod 16 * 16 + c mod 16 = c.
Proof.
  intros Hc.
  assert (E1 : c / 16 / 16 = c / 256) by (rewrite Z.div_div by lia; reflexivity).
  assert (E2 : c / 256 / 16 = c / 4096) by (rewrite Z.div_div by lia; reflexivity).
  assert (H4 : 0 <= c / 4096 < 16) by (split; [apply Z.div_pos | apply Z.div_lt_upper_bound]; lia).
  rewrite (Z.mod_small (c / 4096) 16 H4).
  pose proof (Z.div_mod c 16 ltac:(lia)).
  pose proof (Z.div_mod (c / 16) 16 ltac:(lia)).
  pose proof (Z.div_mod (c / 256) 16 ltac:(lia)).
  rewrite E1 in *; rewrite E2 in *; lia.
Qed.

Lemma hex4_step c X t rest :
  unit_ok c -> parse_string_body X = Some (t, rest) ->
  parse_string_body (hex4 c ++ X) = Some (c :: t, rest).
Proof.
  intros Hc HX; unfold hex4; cbn [app parse_string_body].
  replace (92 =? 34) with false by reflexivity; replace (92 =? 92) with true by reflexivity.
  replace (117 =? 117) with true by reflexivity.
  unfold unit_ok in Hc.
  rewrite !hex_value_char by (apply Z.mod_pos_bound; lia).
  rewrite HX, hex_digits_sum by assumption; reflexivity.
Qed.

Lemma raw_step c X t rest :
  32 <= c -> c <> 34 -> c <> 92 -> parse_string_body X = Some (t, rest) ->
  parse_string_body (c :: X) = Some (c :: t, rest).
Proof.
  intros H1 H2 H3 HX; cbn [parse_string_body].
  rewrite (proj2 (Z.eqb_neq c 34) H2), (proj2 (Z.eqb_neq c 92) H3).
  replace (c <? 32) with false by (symmetry; apply Z.ltb_ge; lia).
  rewrite HX; reflexivity.
Qed.

Lemma escape_step c X t rest :
  unit_ok c -> parse_string_body X = Some (t, rest) ->
  parse_string_body (escape_unit c ++ X) = Some (c :: t, rest).
Proof.
  intros Hc HX; unfold escape_unit.
  destruct (Z.eqb_spec c 8); [subst; cbn; rewrite HX; reflexivity |].
  destruct (Z.eqb_spec c 9); [subst; cbn; rewrite HX; reflexivity |].
  destruct (Z.eqb_spec c 10); [subst; cbn; rewrite HX; reflexivity |].
  destruct (Z.eqb_spec c 12); [subst; cbn; rewrite HX; reflexivity |].
  destruct (Z.eqb_spec c 13); [subst; cbn; rewrite HX; reflexivity |].
  destruct (Z.eqb_spec c 34); [subst; cbn; rewrite HX; reflexivity |].
  destruct (Z.eqb_spec c 92); [subst; cbn; rewrite HX; reflexivity |].
  destruct (Z.ltb_spec c 32); [apply hex4_step; assumption |].
  apply raw_step; assumption.
Qed.

Lemma quote_units_parse_n n s rest :
  (List.length s <= n)%nat -> Forall unit_ok s ->
  parse_string_body (quote_units s ++ 34 :: rest) = Some (s, rest).
Proof.
  revert s; induction n as [| n IH]; intros s Hlen Hs.
  - destruct s; [reflexivity | simpl in Hlen; lia].
  - destruct s as [| c r]; [reflexivity |].
    inversion Hs as [| ? ? Hc Hr]; subst; simpl List.length in Hlen.
    cbn [quote_units].
    destruct (is_lead c) eqn:L.
    + unfold is_lead in L; apply andb_true_iff in L as [L1 L2]; apply Z.leb_le in L1, L2.
      destruct r as [| c2 r2].
      * apply hex4_step; [exact Hc | reflexivity].
      * inversion Hr as [| ? ? Hc2 Hr2]; subst; simpl List.length in Hlen.
        destruct (is_trail c2) eqn:T.
        -- unfold is_trail in T; apply andb_true_iff in T as [T1 T2]; apply Z.leb_le in T1, T2.
           cbn [app]; apply raw_step; try lia; apply raw_step; try lia.
           apply IH; [lia | exact Hr2].
        -- rewrite <- app_assoc; apply hex4_step; [exact Hc |].
           apply IH; [simpl; lia | exact Hr].
    + destruct (is_trail c).
      * rewrite <- app_assoc; apply hex4_step; [exact Hc |]; apply IH; [lia | exact Hr].
      * rewrite <- app_assoc; apply escape_step; [exact Hc |]; apply IH; [lia | exact Hr].
Qed.

Lemma quote_parse s rest :
  Forall unit_ok s -> parse_string_body (quote_units s ++ 34 :: rest) = Some (s, rest).
Proof. intros; apply (quote_units_parse_n (List.length s)); auto. Qed.

Lemma wf_arr l : wf (JArr l) <-> Forall wf l.
Proof.
  simpl; induction l as [| x r IH]; split; intros H; auto.
  - destruct H as [H1 H2]; constructor; [exact H1 | apply IH, H2].
  - inversion H; subst; split; [assumption | apply IH; assumption].
Qed.

Lemma wf_obj fs :
  wf (JObj fs) <-> NoDup (map fst fs) /\ Forall (fun kv => Forall unit_ok (fst kv) /\ wf (snd kv)) fs.
Proof.
  simpl; split; intros [Hn H]; split; auto; clear Hn; induction fs as [| kv r IH]; auto.
  - destruct H as [H1 H2]; constructor; [exact H1 | apply IH, H2].
  - inversion H; subst; split; [assumption | apply IH; assumption].
Qed.

Lemma skip_ws_nows c r : is_ws c = false -> skip_ws (c :: r) = c :: r.
Proof. intros H; simpl; rewrite H; reflexivity. Qed.

Lemma set_prop_absent acc k v :
  ~ In k (map fst acc) -> set_prop acc k v = acc ++ [(k, v)].
Proof.
  induction acc as [| [k' v'] r IH]; intros Hn; [reflexivity |].
  simpl in Hn |- *; rewrite jsstr_eqb_neq by (intros ->; apply Hn; left; reflexivity).
  rewrite IH by tauto; reflexivity.
Qed.

Lemma parse_number_head s x r :
  parse_number s = Some (x, r) -> exists c t, s = c :: t /\ (c = 45 \/ is_digit c = true).
Proof.
  destruct s as [| c t]; [cbn; discriminate |]; intros H.
  exists c, t; split; [reflexivity |].
  destruct (Z.eqb_spec c 45) as [-> | Hc]; [left; reflexivity | right].
  unfold parse_number in H; rewrite (proj2 (Z.eqb_neq c 45) Hc) in H.
  destruct (Z.eqb_spec c 48) as [-> | H48]; [reflexivity |].
  destruct (is_digit c); [reflexivity | discriminate H].
Qed.

Lemma join_cons2 (sep x y : jsstr) r : join sep (x :: y :: r) = x ++ sep ++ join sep (y :: r).
Proof. reflexivity. Qed.

Lemma stringify_head v :
  wf v -> exists c t, JSON_stringify v = c :: t /\ head_ok c.
Proof.
  intros Hwf; unfold head_ok.
  destruct v as [| b | [neg m e | neg] | s | l | fs]; cbn [JSON_stringify].
  - eexists _, _; split; [reflexivity | cbv; repeat split; discriminate].
  - destruct b; (eexists _, _; split; [reflexivity | cbv; repeat split; discriminate]).
  - destruct (Z.eqb_spec m 0) as [-> | Hm].
    + eexists _, _; split; [reflexivity | cbv; repeat split; discriminate].
    + assert (Hm' : 0 < m) by (simpl in Hwf; unfold canonical in Hwf; lia).
      pose proof (number_roundtrip neg m e [] Hwf Hm' I) as H.
      apply parse_number_head in H; destruct H as (c & t & E & Hc).
      rewrite app_nil_r in E; exists c, t; split; [exact E |].
      destruct Hc as [-> | Hc]; [cbv; repeat split; discriminate |].
      unfold is_digit in Hc; apply andb_prop in Hc; destruct Hc as [H1 H2].
      apply Z.leb_le in H1; apply Z.leb_le in H2.
      unfold is_ws; repeat split; [| lia | lia].
      repeat (apply orb_false_intro); apply Z.eqb_neq; lia.
  - eexists _, _; split; [reflexivity | cbv; repeat split; discriminate].
  - eexists _, _; split; [reflexivity | cbv; repeat split; discriminate].
  - eexists _, _; split; [reflexivity | cbv; repeat split; discriminate].
  - eexists _, _; split; [reflexivity | cbv; repeat split; discriminate].
Qed.

Lemma quote_app k X : quote k ++ X = 34 :: quote_units k ++ 34 :: X.
Proof. unfold quote; simpl; rewrite <- app_assoc; reflexivity. Qed.

Lemma list_sum_in {A} (g : A -> nat) l x : In x l -> (g x <= list_sum (map g l))%nat.
Proof.
  induction l as [| y r IH]; simpl; [tauto |].
  intros [-> | H]; [lia | specialize (IH H); lia].
Qed.

Lemma list_sum_len {A} (g : A -> nat) l :
  (forall x, 1 <= g x)%nat -> (List.length l <= list_sum (map g l))%nat.
Proof. intros Hg; induction l as [| y r IH]; simpl; [lia | specialize (Hg y); lia]. Qed.

Lemma jsize_pos v : (1 <= jsize v)%nat.
Proof. destruct v; simpl; lia. Qed.

Ltac pstep := cbn [parse_members parse_elems skip_ws is_ws Z.eqb Pos.eqb orb andb app].

Lemma elems_parse f l acc g rest :
  l <> [] ->
  Forall (fun x => forall rest', delim rest' ->
            parse_value f (JSON_stringify x ++ rest') = Some (norm x, rest')) l ->
  (List.length l <= g)%nat ->
  parse_elems (parse_value f) g (join [44] (map JSON_stringify l) ++ 93 :: rest) acc =
  Some (JArr (acc ++ map norm l), rest).
Proof.
  revert acc g; induction l as [| x l IH]; intros acc g Hne Hall Hg; [congruence |].
  inversion Hall as [| ? ? Hx Hl]; subst.
  destruct g as [| g]; [simpl in Hg; lia |].
  destruct l as [| y l].
  - cbn [map join parse_elems]; rewrite Hx by (right; left; reflexivity).
    pstep; reflexivity.
  - cbn [map]; rewrite join_cons2; rewrite <- !app_assoc; cbn [parse_elems].
    rewrite Hx by (left; reflexivity); pstep.
    rewrite IH by (simpl in *; try discriminate; auto; lia).
    rewrite <- app_assoc; reflexivity.
Qed.

Lemma members_parse f fs acc g rest :
  fs <> [] ->
  NoDup (map fst acc ++ map fst fs) ->
  Forall (fun kv => Forall unit_ok (fst kv) /\ forall rest', delim rest' ->
            parse_value f (JSON_stringify (snd kv) ++ rest') = Some (norm (snd kv), rest')) fs ->
  (List.length fs <= g)%nat ->
  parse_members (parse_value f) g
    (join [44] (map (fun kv => quote (fst kv) ++ [58] ++ JSON_stringify (snd kv)) fs) ++ 125 :: rest) acc =
  Some (JObj (acc ++ map (fun kv => (fst kv, norm (snd kv))) fs), rest).
Proof.
  revert acc g; induction fs as [| [k v] fs IH]; intros acc g Hne Hnd Hall Hg; [congruence |].
  inversion Hall as [| ? ? [Hk Hv] Hl]; subst; cbn [fst snd] in Hk, Hv.
  destruct g as [| g]; [simpl in Hg; lia |].
  assert (Hnin : ~ In k (map fst acc)).
  { intros Hin; cbn [map] in Hnd; apply NoDup_remove_2 in Hnd; apply Hnd, in_or_app; left; exact Hin. }
  destruct fs as [| kv' fs].
  - cbn [map join fst snd]; rewrite <- !app_assoc, quote_app; pstep.
    rewrite quote_parse by exact Hk; pstep.
    rewrite Hv by (right; right; reflexivity); pstep.
    rewrite set_prop_absent by exact Hnin; reflexivity.
  - cbn [map]; rewrite join_cons2; cbn [fst snd]; rewrite <- !app_assoc, quote_app; pstep.
    rewrite quote_parse by exact Hk; pstep.
    rewrite Hv by (left; reflexivity); pstep.
    rewrite set_prop_absent by exact Hnin.
    rewrite IH.
    + rewrite <- app_assoc; reflexivity.
    + discriminate.
    + rewrite map_app, <- app_assoc; exact Hnd.
    + exact Hl.
    + simpl in *; lia.
Qed.

Lemma head_not c : head_ok c -> forall t, skip_ws (c :: t) = c :: t.
Proof. intros [H _] t; apply skip_ws_nows, H. Qed.

Lemma stringify_parse v :
  wf v -> forall f rest, (jsize v <= f)%nat -> delim rest ->
  parse_value f (JSON_stringify v ++ rest) = Some (norm v, rest).
Proof.
  induction v as [| b | [neg m e | neg] | s | l IH | fs IH] using json_ind';
    intros Hwf f rest Hf Hd; (destruct f as [| f]; [simpl in Hf; lia |]).
  - reflexivity.
  - destruct b; reflexivity.
  - destruct (Z.eqb_spec m 0) as [-> | Hm].
    + assert (e = -1074) as -> by (simpl in Hwf; unfold canonical in Hwf; lia).
      cbn [JSON_stringify number_to_string norm]; change (0 =? 0) with true; cbv iota.
      change (u "0" ++ rest) with (48 :: rest).
      cbn [parse_value]; rewrite (skip_ws_nows 48 rest) by reflexivity; cbv iota beta.
      change ((48 =? 91)) with false; change ((48 =? 123)) with false; change ((48 =? 34)) with false;
        change ((48 =? 45) || is_digit 48) with true; cbv iota beta.
      change (48 :: rest) with (u "0" ++ rest); rewrite zero_roundtrip by exact Hd; reflexivity.
    + assert (Hm' : 0 < m) by (simpl in Hwf; unfold canonical in Hwf; lia).
      destruct (stringify_head (JNum (DFin neg m e)) Hwf) as (c & t & E & Hc).
      pose proof (number_roundtrip neg m e rest Hwf Hm' Hd) as Hp.
      cbn [JSON_stringify] in E |- *; rewrite E in Hp |- *; cbn [app] in Hp |- *.
      pose proof (parse_number_head _ _ _ Hp) as (c' & t' & E' & Hc'); injection E' as <- <-.
      cbn [norm]; rewrite (proj2 (Z.eqb_neq m 0) Hm).
      cbn [parse_value]; rewrite head_not by exact Hc; cbv iota beta.
      assert (48 <= c <= 57 \/ c = 45) as Hr.
      { destruct Hc' as [-> | H]; [right; reflexivity | left].
        unfold is_digit in H; apply andb_prop in H; destruct H as [H1 H2].
        apply Z.leb_le in H1; apply Z.leb_le in H2; lia. }
      replace (c =? 91) with false by (symmetry; apply Z.eqb_neq; lia).
      replace (c =? 123) with false by (symmetry; apply Z.eqb_neq; lia).
      replace (c =? 34) with false by (symmetry; apply Z.eqb_neq; lia).
      replace ((c =? 45) || is_digit c) with true
        by (destruct Hc' as [-> | H]; [reflexivity | rewrite H, orb_true_r; reflexivity]).
      rewrite Hp; reflexivity.
  - reflexivity.
  - cbn [JSON_stringify norm]; rewrite quote_app.
    cbn [parse_value]; rewrite (skip_ws_nows 34) by reflexivity; cbv iota beta.
    change (34 =? 91) with false; change (34 =? 123) with false; change (34 =? 34) with true;
      cbv iota beta.
    rewrite quote_parse by exact Hwf; reflexivity.
  - apply wf_arr in Hwf.
    cbn [jsize] in Hf.
    destruct l as [| x l'].
    + reflexivity.
    + inversion Hwf as [| ? ? Hx _]; subst.
      destruct (stringify_head x Hx) as (c & t & E & Hc).
      cbn [JSON_stringify norm app]; rewrite <- app_assoc; cbn [app].
      remember (join [44] (map JSON_stringify (x :: l')) ++ 93 :: rest) as R eqn:ER.
      assert (HR : exists t', R = c :: t').
      { subst R; destruct l' as [| y l''].
        - cbn [map join]; rewrite E; eexists; reflexivity.
        - cbn [map]; rewrite join_cons2, E; eexists; reflexivity. }
      destruct HR as [t' HR].
      cbn [parse_value]; rewrite (skip_ws_nows 91) by reflexivity; cbv iota beta.
      change (91 =? 91) with true; cbv iota beta.
      rewrite HR; rewrite head_not by exact Hc; cbv iota beta.
      replace (c =? 93) with false by (symmetry; apply Z.eqb_neq; destruct Hc as (_ & H & _); exact H).
      rewrite <- HR, ER; rewrite elems_parse; [reflexivity | discriminate | |].
      * rewrite Forall_forall in IH, Hwf |- *; intros y Hy rest' Hd'.
        apply IH; [exact Hy | apply Hwf, Hy | | exact Hd'].
        pose proof (list_sum_in jsize _ _ Hy); lia.
      * pose proof (list_sum_len jsize (x :: l') jsize_pos); lia.
  - apply wf_obj in Hwf; destruct Hwf as [Hnd Hwf].
    cbn [jsize] in Hf.
    destruct fs as [| [k x] fs'].
    + reflexivity.
    + assert (ES : JSON_stringify (JObj ((k, x) :: fs')) ++ rest =
        123 :: join [44] (map (fun kv => quote (fst kv) ++ [58] ++ JSON_stringify (snd kv)) ((k, x) :: fs'))
                  ++ 125 :: rest)
        by (cbn [JSON_stringify]; rewrite <- !app_assoc; reflexivity).
      rewrite ES; cbn [norm].
      remember (join [44] (map (fun kv => quote (fst kv) ++ [58] ++ JSON_stringify (snd kv)) ((k, x) :: fs'))
                  ++ 125 :: rest) as R eqn:ER.
      assert (HR : exists t, R = 34 :: t).
      { subst R; destruct fs' as [| y fs''].
        - cbn [map join fst snd]; rewrite <- !app_assoc, quote_app; eexists; reflexivity.
        - cbn [map]; rewrite join_cons2; cbn [fst snd];
          rewrite <- !app_assoc, quote_app; eexists; reflexivity. }
      destruct HR as [t HR].
      cbn [parse_value]; rewrite (skip_ws_nows 123) by reflexivity; cbv iota beta.
      change (123 =? 91) with false; change (123 =? 123) with true; cbv iota beta.
      rewrite HR; rewrite (skip_ws_nows 34) by reflexivity; cbv iota beta.
      change (34 =? 125) with false; cbv iota beta.
      rewrite <- HR, ER; rewrite members_parse; [reflexivity | discriminate | exact Hnd | |].
      * rewrite Forall_forall in IH, Hwf |- *; intros y Hy.
        split; [apply Hwf, Hy |]; intros rest' Hd'.
        apply IH; [exact Hy | apply Hwf, Hy | | exact Hd'].
        pose proof (list_sum_in (A := jsstr * json) (fun kv => jsize (snd kv)) _ _ Hy); cbn beta in *; lia.
      * pose proof (list_sum_len (A := jsstr * json) (fun kv => jsize (snd kv)) ((k, x) :: fs') (fun kv => jsize_pos (snd kv))); unfold jsstr in *; lia.
Qed.

Lemma join_len (sep : jsstr) l :
  (list_sum (map (@List.length Z) l) <= List.length (join sep l))%nat.
Proof.
  induction l as [| x [| y r] IH]; [simpl; lia | simpl; lia |].
  rewrite join_cons2, !length_app.
  change (list_sum (map (@List.length Z) (x :: y :: r)))
    with (List.length x + list_sum (map (@List.length Z) (y :: r)))%nat; unfold jsstr in *; lia.
Qed.

Lemma list_sum_le {A} (g h : A -> nat) l :
  Forall (fun x => g x <= h x)%nat l -> (list_sum (map g l) <= list_sum (map h l))%nat.
Proof. induction 1; simpl; lia. Qed.

Lemma jsize_length v : wf v -> (jsize v <= List.length (JSON_stringify v))%nat.
Proof.
  induction v as [| b | d | s | l IH | fs IH] using json_ind'; intros Hwf.
  - simpl; lia.
  - destruct b; simpl; lia.
  - destruct (stringify_head _ Hwf) as (c & t & E & _); rewrite E; simpl; lia.
  - simpl; lia.
  - apply wf_arr in Hwf; cbn [jsize JSON_stringify]; rewrite !length_app.
    pose proof (join_len [44] (map JSON_stringify l)) as H; rewrite map_map in H.
    assert (list_sum (map jsize l) <= list_sum (map (fun x => List.length (JSON_stringify x)) l))%nat.
    { apply list_sum_le; rewrite Forall_forall in IH, Hwf |- *; intros x Hx; apply IH; auto. }
    simpl; lia.
  - apply wf_obj in Hwf; destruct Hwf as [_ Hwf]; cbn [jsize JSON_stringify]; rewrite !length_app.
    pose proof (join_len [44] (map (fun kv => quote (fst kv) ++ [58] ++ JSON_stringify (snd kv)) fs)) as H.
    rewrite map_map in H.
    assert (list_sum (map (fun kv => jsize (snd kv)) fs) <=
            list_sum (map (fun kv => List.length (quote (fst kv) ++ [58%Z] ++ JSON_stringify (snd kv))) fs))%nat.
    { apply list_sum_le; rewrite Forall_forall in IH, Hwf |- *; intros x Hx.
      rewrite !length_app; specialize (IH x Hx (proj2 (Hwf x Hx))); lia. }
    cbn [List.length]; unfold jsstr in *; lia.
Qed.

Lemma stringify_JSON_parse v : wf v -> JSON_parse (JSON_stringify v) = Some (norm v).
Proof.
  intros Hwf; unfold JSON_parse.
  pose proof (jsize_length v Hwf) as Hl.
  pose proof (stringify_parse v Hwf (S (List.length (JSON_stringify v))) [] ltac:(lia) I) as H.
  rewrite app_nil_r in H; rewrite H; reflexivity.
Qed.

Section Rest.
Variable P : Z -> Prop.

Lemma skip_ws_rest s : Forall P s -> Forall P (skip_ws s).
Proof.
  induction s as [| c r IH]; intros H; [exact H |].
  simpl; destruct (is_ws c); [apply IH; inversion H; assumption | exact H].
Qed.

Lemma span_rest s ds r : span_digits s = (ds, r) -> Forall P s -> Forall P r /\ Forall is_dig ds.
Proof.
  revert ds r; induction s as [| c t IH]; intros ds r E H; simpl in E.
  - injection E as <- <-; auto.
  - destruct (is_digit c) eqn:Ed.
    + destruct (span_digits t) as [ds' r'] eqn:E'; injection E as <- <-.
      inversion H; subst; destruct (IH _ _ eq_refl) as [K1 K2]; [assumption |].
      split; [exact K1 | constructor; [| exact K2]].
      unfold is_digit in Ed; apply andb_prop in Ed; destruct Ed as [A B].
      apply Z.leb_le in A; apply Z.leb_le in B; unfold is_dig; lia.
    + injection E as <- <-; auto.
Qed.

Lemma exponent_rest s x r : parse_exponent s = Some (x, r) -> Forall P s -> Forall P r.
Proof.
  intros E H; unfold parse_exponent in E.
  destruct s as [| c t]; [injection E as _ <-; exact H |].
  destruct ((c =? 101) || (c =? 69)).
  - assert (Ht : Forall P t) by (inversion H; assumption).
    destruct (match t with
              | [] => (1, t)
              | c' :: r' => if c' =? 43 then (1, r') else if c' =? 45 then (-1, r') else (1, t)
              end) as [sg r1] eqn:E1.
    assert (Hr1 : Forall P r1).
    { destruct t as [| c' r']; [injection E1 as _ <-; exact Ht |].
      destruct (c' =? 43); [injection E1 as _ <-; inversion Ht; assumption |].
      destruct (c' =? 45); injection E1 as _ <-; [inversion Ht; assumption | exact Ht]. }
    destruct (span_digits r1) as [es r2] eqn:E2.
    destruct es; [discriminate | injection E as _ <-].
    exact (proj1 (span_rest _ _ _ E2 Hr1)).
  - injection E as _ <-; exact H.
Qed.
End Rest.

Lemma number_value_wf (neg : bool) M E : 0 <= M -> wf (JNum (number_value neg M E)).
Proof.
  intros HM; unfold number_value, rat_of.
  destruct (0 <=? E) eqn:HE.
  - apply Z.leb_le in HE.
    destruct (round_pos_canonical neg (M * 10 ^ E) 1) as [-> | (m & e & -> & Hc)];
      [pose proof (Z.pow_nonneg 10 E); nia | lia | exact I | exact Hc].
  - destruct (round_pos_canonical neg M (10 ^ (- E))) as [-> | (m & e & -> & Hc)];
      [lia | apply Z.pow_pos_nonneg; lia | exact I | exact Hc].
Qed.

Lemma span_digs s ds r : span_digits s = (ds, r) -> Forall is_dig ds.
Proof.
  intros E; apply (span_rest (fun _ => True) s ds r E).
  apply Forall_forall; auto.
Qed.

Lemma span_rest1 (P : Z -> Prop) s ds r : span_digits s = (ds, r) -> Forall P s -> Forall P r.
Proof. intros E H; exact (proj1 (span_rest P s ds r E H)). Qed.

Lemma Forall_tail (P : Z -> Prop) c t : Forall P (c :: t) -> Forall P t.
Proof. intros H; inversion H; assumption. Qed.

Lemma sign_rest (P : Z -> Prop) (s s1 : jsstr) neg :
  match s with [] => (false, s) | c :: r => if c =? 45 then (true, r) else (false, s) end = (neg, s1) ->
  Forall P s -> Forall P s1.
Proof.
  intros E H; destruct s as [| c t]; [injection E as _ <-; exact H |].
  destruct (c =? 45); injection E as _ <-; [exact (Forall_tail P c t H) | exact H].
Qed.

Lemma int_rest (P : Z -> Prop) (s1 r1 : jsstr) ids :
  match s1 with
  | [] => None
  | c :: r => if c =? 48 then Some ([0], r) else if is_digit c then Some (span_digits s1) else None
  end = Some (ids, r1) ->
  Forall P s1 -> Forall P r1 /\ Forall is_dig ids.
Proof.
  intros E H; destruct s1 as [| c t]; [discriminate |].
  destruct (c =? 48).
  - injection E as <- <-; split; [exact (Forall_tail P c t H) | repeat constructor; unfold is_dig; lia].
  - destruct (is_digit c); [| discriminate].
    assert (E' : span_digits (c :: t) = (ids, r1)) by congruence.
    exact (span_rest P _ _ _ E' H).
Qed.

Lemma frac_rest (P : Z -> Prop) (r1 r2 : jsstr) fs :
  match r1 with
  | [] => Some ([], r1)
  | c :: r =>
    if c =? 46 then
      let '(fs, r2) := span_digits r in match fs with [] => None | _ => Some (fs, r2) end
    else Some ([], r1)
  end = Some (fs, r2) ->
  Forall P r1 -> Forall P r2 /\ Forall is_dig fs.
Proof.
  intros E H; destruct r1 as [| c t]; [injection E as <- <-; auto |].
  destruct (c =? 46).
  - destruct (span_digits t) as [ds r] eqn:Es.
    destruct ds; [discriminate | injection E as <- <-].
    apply (span_rest P t); [exact Es | exact (Forall_tail P c t H)].
  - injection E as <- <-; auto.
Qed.

Lemma number_rest (P : Z -> Prop) (s r : jsstr) d :
  Forall P s -> parse_number s = Some (d, r) -> Forall P r /\ wf (JNum d).
Proof.
  intros Hs E; unfold parse_number in E.
  destruct (match s with [] => (false, s) | c :: r => if c =? 45 then (true, r) else (false, s) end)
    as [neg s1] eqn:E1; cbv beta iota zeta in E.
  pose proof (sign_rest P s s1 neg E1 Hs) as Hs1.
  destruct (match s1 with
            | [] => None
            | c :: r => if c =? 48 then Some ([0], r) else if is_digit c then Some (span_digits s1) else None
            end) as [[ids r1] |] eqn:E2; [cbv beta iota zeta in E | discriminate].
  destruct (int_rest P s1 r1 ids E2 Hs1) as [Hr1 Hids].
  destruct (match r1 with
            | [] => Some ([], r1)
            | c :: r =>
              if c =? 46 then
                let '(fs, r2) := span_digits r in match fs with [] => None | _ => Some (fs, r2) end
              else Some ([], r1)
            end) as [[fs r2] |] eqn:E3; [cbv beta iota zeta in E | discriminate].
  destruct (frac_rest P r1 r2 fs E3 Hr1) as [Hr2 Hfs].
  destruct (parse_exponent r2) as [[ex r3] |] eqn:E4; [| discriminate].
  injection E as <- <-; split; [exact (exponent_rest P r2 ex r3 E4 Hr2) |].
  apply number_value_wf, dv_range, Forall_app; auto.
Qed.

Lemma hex_value_range c a : hex_value c = Some a -> 0 <= a < 16.
Proof.
  unfold hex_value, is_digit; intros E.
  destruct ((48 <=? c) && (c <=? 57)) eqn:E1;
    [injection E as <-; apply andb_prop in E1; destruct E1 as [A B]; apply Z.leb_le in A, B; lia |].
  destruct ((97 <=? c) && (c <=? 102)) eqn:E2;
    [injection E as <-; apply andb_prop in E2; destruct E2 as [A B]; apply Z.leb_le in A, B; lia |].
  destruct ((65 <=? c) && (c <=? 70)) eqn:E3;
    [injection E as <-; apply andb_prop in E3; destruct E3 as [A B]; apply Z.leb_le in A, B; lia |].
  discriminate.
Qed.

Lemma simple_escape_range e ch : simple_escape e = Some ch -> unit_ok ch.
Proof.
  unfold simple_escape, unit_ok; intros E.
  repeat match type of E with
         | context [if ?b then _ else _] => destruct b
         end; try discriminate; injection E as <-; lia.
Qed.

Lemma string_body_ok_n n s t r :
  (List.length s <= n)%nat -> Forall unit_ok s -> parse_string_body s = Some (t, r) ->
  Forall unit_ok t /\ Forall unit_ok r.
Proof.
  revert s t r; induction n as [| n IH]; intros s t r Hn Hs E;
    (destruct s as [| c s0]; [discriminate |]); [simpl in Hn; lia |].
  inversion Hs as [| ? ? Hc Hs0]; subst; simpl in Hn.
  cbn [parse_string_body] in E.
  destruct (c =? 34); [injection E as <- <-; auto |].
  destruct (c =? 92).
  - destruct s0 as [| e r2]; [discriminate |].
    inversion Hs0 as [| ? ? He Hr2]; subst; simpl in Hn.
    destruct (e =? 117).
    + destruct r2 as [| h1 [| h2 [| h3 [| h4 r3]]]]; try discriminate.
      destruct (hex_value h1) as [a |] eqn:Ea; [| discriminate].
      destruct (hex_value h2) as [b |] eqn:Eb; [| discriminate].
      destruct (hex_value h3) as [c' |] eqn:Ec; [| discriminate].
      destruct (hex_value h4) as [d |] eqn:Ed; [| discriminate].
      destruct (parse_string_body r3) as [[t' rest] |] eqn:Ep; [| discriminate].
      injection E as <- <-.
      apply hex_value_range in Ea, Eb, Ec, Ed.
      assert (Hr3 : Forall unit_ok r3) by (do 4 apply Forall_tail in Hr2; exact Hr2).
      destruct (IH r3 t' rest ltac:(simpl in Hn; lia) Hr3 Ep) as [H1 H2].
      split; [constructor; [unfold unit_ok; lia | exact H1] | exact H2].
    + destruct (simple_escape e) as [ch |] eqn:Ech; [| discriminate].
      destruct (parse_string_body r2) as [[t' rest] |] eqn:Ep; [| discriminate].
      injection E as <- <-.
      destruct (IH r2 t' rest ltac:(lia) Hr2 Ep) as [H1 H2].
      split; [constructor; [exact (simple_escape_range e ch Ech) | exact H1] | exact H2].
  - destruct (c <? 32); [discriminate |].
    destruct (parse_string_body s0) as [[t' rest] |] eqn:Ep; [| discriminate].
    injection E as <- <-.
    destruct (IH s0 t' rest ltac:(lia) Hs0 Ep) as [H1 H2].
    split; [constructor; [exact Hc | exact H1] | exact H2].
Qed.

Lemma string_body_ok s t r :
  Forall unit_ok s -> parse_string_body s = Some (t, r) -> Forall unit_ok t /\ Forall unit_ok r.
Proof. apply (string_body_ok_n (List.length s)); lia. Qed.

Lemma set_prop_keys_in acc k v x :
  In x (map fst (set_prop acc k v)) -> x = k \/ In x (map fst acc).
Proof.
  induction acc as [| [k' v'] r IH]; simpl; [intros [-> | []]; left; reflexivity |].
  destruct (jsstr_eqb k k'); simpl; [tauto |].
  intros [-> | H]; [right; left; reflexivity | destruct (IH H); tauto].
Qed.

Lemma set_prop_nodup acc k v : NoDup (map fst acc) -> NoDup (map fst (set_prop acc k v)).
Proof.
  induction acc as [| [k' v'] r IH]; intros H; simpl; [repeat constructor; simpl; tauto |].
  inversion H as [| ? ? Hn Hr]; subst.
  destruct (jsstr_eqb k k') eqn:E; simpl; [exact H |].
  constructor; [| apply IH, Hr].
  intros Hin; apply set_prop_keys_in in Hin; destruct Hin as [-> | Hin]; [| tauto].
  rewrite jsstr_eqb_refl in E; discriminate.
Qed.

Lemma set_prop_ok acc k v :
  Forall member_ok acc -> member_ok (k, v) -> Forall member_ok (set_prop acc k v).
Proof.
  induction acc as [| [k' v'] r IH]; intros H Hkv; simpl; [constructor; auto |].
  inversion H as [| ? ? H1 H2]; subst.
  destruct (jsstr_eqb k k') eqn:E.
  - apply jsstr_eqb_spec in E; subst; constructor; auto.
  - constructor; auto.
Qed.

Section Containers.
Variable pv : jsstr -> option (json * jsstr).
Hypothesis Hpv : forall s v r, Forall unit_ok s -> pv s = Some (v, r) -> wf v /\ Forall unit_ok r.

Lemma elems_wf g s acc v r :
  Forall wf acc -> Forall unit_ok s -> parse_elems pv g s acc = Some (v, r) -> wf v /\ Forall unit_ok r.
Proof.
  revert s acc; induction g as [| g IH]; intros s acc Hacc Hs E; [discriminate |].
  cbn [parse_elems] in E.
  destruct (pv s) as [[v0 s1] |] eqn:Ep; [| discriminate].
  destruct (Hpv _ _ _ Hs Ep) as [Hv0 Hs1].
  pose proof (skip_ws_rest unit_ok s1 Hs1) as Hw.
  destruct (skip_ws s1) as [| c1 s2]; [discriminate |].
  apply Forall_tail in Hw.
  assert (Hacc' : Forall wf (acc ++ [v0])) by (apply Forall_app; auto).
  destruct (c1 =? 44); [exact (IH _ _ Hacc' Hw E) |].
  destruct (c1 =? 93); [injection E as <- <-; split; [apply wf_arr; exact Hacc' | exact Hw] | discriminate].
Qed.

Lemma members_wf g s acc v r :
  NoDup (map fst acc) -> Forall member_ok acc -> Forall unit_ok s ->
  parse_members pv g s acc = Some (v, r) -> wf v /\ Forall unit_ok r.
Proof.
  revert s acc; induction g as [| g IH]; intros s acc Hnd Hacc Hs E; [discriminate |].
  cbn [parse_members] in E.
  pose proof (skip_ws_rest unit_ok s Hs) as Hw.
  destruct (skip_ws s) as [| c1 s1]; [discriminate |]; apply Forall_tail in Hw.
  destruct (c1 =? 34); [| discriminate].
  destruct (parse_string_body s1) as [[k s2] |] eqn:Ek; [| discriminate].
  destruct (string_body_ok _ _ _ Hw Ek) as [Hk Hs2].
  pose proof (skip_ws_rest unit_ok s2 Hs2) as Hw2.
  destruct (skip_ws s2) as [| c2 s3]; [discriminate |]; apply Forall_tail in Hw2.
  destruct (c2 =? 58); [| discriminate].
  destruct (pv s3) as [[v0 s4] |] eqn:Ep; [| discriminate].
  destruct (Hpv _ _ _ Hw2 Ep) as [Hv0 Hs4].
  pose proof (skip_ws_rest unit_ok s4 Hs4) as Hw4.
  destruct (skip_ws s4) as [| c3 s5]; [discriminate |]; apply Forall_tail in Hw4.
  assert (Hnd' := set_prop_nodup acc k v0 Hnd).
  assert (Hacc' := set_prop_ok acc k v0 Hacc (conj Hk Hv0)).
  destruct (c3 =? 44); [exact (IH _ _ Hnd' Hacc' Hw4 E) |].
  destruct (c3 =? 125); [injection E as <- <- | discriminate].
  split; [apply wf_obj; split; [exact Hnd' | exact Hacc'] | exact Hw4].
Qed.
End Containers.

Lemma parse_value_wf f s v r :
  Forall unit_ok s -> parse_value f s = Some (v, r) -> wf v /\ Forall unit_ok r.
Proof.
  revert s v r; induction f as [| f IH]; intros s v r Hs E; [discriminate |].
  cbn [parse_value] in E.
  pose proof (skip_ws_rest unit_ok s Hs) as Hw.
  destruct (skip_ws s) as [| c r0]; [discriminate |].
  assert (Hr0 : Forall unit_ok r0) by exact (Forall_tail _ _ _ Hw).
  destruct (c =? 91).
  - pose proof (skip_ws_rest unit_ok r0 Hr0) as Hw1.
    destruct (skip_ws r0) as [| c1 r1]; [discriminate |].
    destruct (c1 =? 93).
    + injection E as <- <-; split; [exact I | exact (Forall_tail _ _ _ Hw1)].
    + exact (elems_wf (parse_value f) IH f r0 [] v r (Forall_nil _) Hr0 E).
  - destruct (c =? 123).
    + pose proof (skip_ws_rest unit_ok r0 Hr0) as Hw1.
      destruct (skip_ws r0) as [| c1 r1]; [discriminate |].
      destruct (c1 =? 125).
      * injection E as <- <-; split; [split; [constructor | exact I] | exact (Forall_tail _ _ _ Hw1)].
      * exact (members_wf (parse_value f) IH f r0 [] v r (NoDup_nil _) (Forall_nil _) Hr0 E).
    + destruct (c =? 34).
      * destruct (parse_string_body r0) as [[t r1] |] eqn:Et; [| discriminate].
        injection E as <- <-; exact (string_body_ok _ _ _ Hr0 Et).
      * destruct ((c =? 45) || is_digit c).
        -- destruct (parse_number (c :: r0)) as [[d r1] |] eqn:Ed; [| discriminate].
           injection E as <- <-.
           destruct (number_rest unit_ok (c :: r0) r1 d Hw Ed) as [H1 H2]; auto.
        -- destruct (jsstr_eqb (firstn 4 (c :: r0)) (u "null"));
             [pose proof (Forall_skipn unit_ok 4 _ Hw) as Hk; injection E as <- <-; split; [exact I | exact Hk] |].
           destruct (jsstr_eqb (firstn 4 (c :: r0)) (u "true"));
             [pose proof (Forall_skipn unit_ok 4 _ Hw) as Hk; injection E as <- <-; split; [exact I | exact Hk] |].
           destruct (jsstr_eqb (firstn 5 (c :: r0)) (u "false"));
             [pose proof (Forall_skipn unit_ok 5 _ Hw) as Hk; injection E as <- <-; split; [exact I | exact Hk] | discriminate].
Qed.

Lemma JSON_parse_wf text v : Forall unit_ok text -> JSON_parse text = Some v -> wf v.
Proof.
  intros Ht E; unfold JSON_parse in E.
  destruct (parse_value (S (List.length text)) text) as [[v0 r] |] eqn:Ep; [| discriminate].
  destruct (skip_ws r); [injection E as <-; exact (proj1 (parse_value_wf _ _ _ _ Ht Ep)) | discriminate].
Qed.

Lemma units_ok_check (text : jsstr) :
  forallb (fun c => (0 <=? c) && (c <? 65536)) text = true -> Forall unit_ok text.
Proof.
  intros H; apply Forall_forall; intros c Hc.
  rewrite forallb_forall in H; specialize (H c Hc).
  apply andb_prop in H; destruct H as [A B]; apply Z.leb_le in A; apply Z.ltb_lt in B.
  unfold unit_ok; lia.
Qed.

(** C10 (amended): for a JSON text (of UTF-16 code units) whose parsed value
    is not [null] and, when it is an object, has no ["properties"] member,
    the pre-processor does not fail and returns [JSON.stringify] of the
    parsed value; parsing that output gives back the parsed value up to
    [norm]: numbers that overflowed to an infinity become [null] and [-0]
    becomes [0]. *)
Theorem appendDeprecatedDescription_reserialises (text : jsstr) (v : json) :
  Forall unit_ok text ->
  JSON_parse text = Some v ->
  v <> JNull ->
  (forall fs, v = JObj fs -> get_prop fs k_properties = None) ->
  appendDeprecatedDescription text = Ok (JSON_stringify v) /\
  JSON_parse (JSON_stringify v) = Some (norm v).
Proof.
  intros Ht Hp Hn Hprops.
  split.
  - unfold appendDeprecatedDescription; rewrite Hp.
    destruct v as [| b | d | s | l | fs]; try reflexivity; [congruence |].
    cbn [deprecate]; rewrite (Hprops fs eq_refl); reflexivity.
  - apply stringify_JSON_parse, (JSON_parse_wf text v Ht Hp).
Qed.

Lemma appendDeprecatedDescription_reserialises_witness :
  appendDeprecatedDescription w10_text = Ok (JSON_stringify w10_value) /\
  JSON_parse (JSON_stringify w10_value) = Some (norm w10_value).
Proof.
  apply (appendDeprecatedDescription_reserialises w10_text w10_value).
  - apply units_ok_check; vm_compute; reflexivity.
  - vm_compute; reflexivity.
  - discriminate.
  - intros fs E; injection E as <-; vm_compute; reflexivity.
Defined.

(** C10 (counterexample): [{"maximum":1e400}] has no top-level
    ["properties"], yet the pre-processor returns [{"maximum":null}], whose
    parsed value differs from the input's ([1e400] parses to Infinity). *)
Lemma appendDeprecatedDescription_overflow_to_null :
  JSON_parse (uq "{'maximum':1e400}") = Some (JObj [(u "maximum", JNum (DInf false))]) /\
  appendDeprecatedDescription (uq "{'maximum':1e400}") = Ok (uq "{'maximum':null}") /\
  JSON_parse (uq "{'maximum':null}") = Some (JObj [(u "maximum", JNull)]) /\
  JSON_parse (uq "{'maximum':null}") <> JSON_parse (uq "{'maximum':1e400}").
Proof.
  split; [vm_compute; reflexivity |].
  split; [vm_compute; reflexivity |].
  split; [vm_compute; reflexivity |].
  vm_compute; discriminate.
Qed.

(** ** More of FetchingJSONSchemaStore.fetch *)

Section FetchSteps.
Context `{NodePlatform}.

(** The first step leaves [content] null: no [ng-cli:] scheme, and either
    no host or a host whose fetch fails with a network error. *)
Lemma first_step_null address w :
  protocol (url_parse address) <> Some (u "ng-cli:") ->
  hostname (url_parse address) = None \/ hostname (url_parse address) = Some [] \/
  network w address = NetError ->
  fetch_first_step address w = (Done CNull, w).
Proof.
  intros Hp Hh; unfold fetch_first_step; cbv zeta.
  rewrite option_str_eqb_other by exact Hp.
  destruct (option_str_truthy (hostname (url_parse address))) eqn:Et; [| reflexivity].
  destruct Hh as [Hh | [Hh | Hn]]; [rewrite Hh in Et; discriminate | rewrite Hh in Et; discriminate |].
  cbv [try_catch bind http_fetch]; rewrite Hn; reflexivity.
Qed.

Lemma store_fetch_content inPath address w c :
  fetch_first_step address w = (Done CNull, w) ->
  fetch_relative_step inPath address CNull w = (Done c, w) ->
  fetch_literal_step address c w = (Done c, w) ->
  c <> CNull ->
  store_fetch inPath address w =
    (bind (lift (appendDeprecatedDescription (content_string c)))
          (fun text => bind (parseJSON text) (fun v => ret (Some v)))) w.
Proof.
  intros H1 H2 H3 Hc; unfold store_fetch.
  rewrite (bind_done _ _ _ _ _ H1), (bind_done _ _ _ _ _ H2), (bind_done _ _ _ _ _ H3).
  destruct c; [congruence | reflexivity | reflexivity].
Qed.

Lemma relative_step_file inPath address w c :
  path_isAbsolute address = false ->
  lookup_path (files w) (path_join [path_dirname inPath; address]) = Some (File c) ->
  fetch_relative_step inPath address CNull w = (Done (CText c), w).
Proof.
  intros Ha Hl; unfold fetch_relative_step; rewrite Ha; cbv [negb bind existsSync readFileSync ret].
  rewrite Hl; cbv beta iota; rewrite Hl; reflexivity.
Qed.

Lemma relative_step_dir inPath address w :
  path_isAbsolute address = false ->
  lookup_path (files w) (path_join [path_dirname inPath; address]) = Some Dir ->
  fetch_relative_step inPath address CNull w =
    (Raise (EISDIR (path_join [path_dirname inPath; address])), w).
Proof.
  intros Ha Hl; unfold fetch_relative_step; rewrite Ha; cbv [negb bind existsSync readFileSync ret].
  rewrite Hl; cbv beta iota; rewrite Hl; reflexivity.
Qed.

Lemma literal_step_file address w c :
  lookup_path (files w) address = Some (File c) ->
  fetch_literal_step address CNull w = (Done (CText (trim c)), w).
Proof.
  intros Hl; unfold fetch_literal_step; cbv [bind existsSync readFileSync ret].
  rewrite Hl; cbv beta iota; rewrite Hl; reflexivity.
Qed.

Lemma literal_step_text address s w :
  fetch_literal_step address (CText s) w = (Done (CText s), w).
Proof. reflexivity. Qed.

Lemma pipeline_done text t v w :
  appendDeprecatedDescription text = Ok t -> JSON_parse t = Some v ->
  bind (lift (appendDeprecatedDescription text))
       (fun text => bind (parseJSON text) (fun v => ret (Some v))) w = (Done (Some v), w).
Proof.
  intros Ha Hp; rewrite Ha; cbv [lift bind ret parseJSON]; rewrite Hp; reflexivity.
Qed.

Lemma pipeline_syntax text w :
  JSON_parse text = None ->
  bind (lift (appendDeprecatedDescription text))
       (fun text => bind (parseJSON text) (fun v => ret (Some v))) w = (Raise SyntaxError, w).
Proof.
  intros Hp; unfold appendDeprecatedDescription; rewrite Hp; reflexivity.
Qed.

Lemma ng_cli_eqb address :
  protocol (url_parse address) = Some (u "ng-cli:") ->
  option_str_eqb (protocol (url_parse address)) (u "ng-cli:") = true.
Proof. intros Hp; rewrite Hp; apply jsstr_eqb_refl. Qed.

End FetchSteps.

(** A file found next to the input: an address that is not absolute, with
    no [ng-cli:] scheme and no host (or a host the network does not reach),
    is read from the input's directory; its text is pre-processed and
    parsed as it is, without trimming, and the literal address is not
    consulted even when such a file exists. *)
Theorem fetch_relative_file `{NodePlatform} inPath address c t v w :
  protocol (url_parse address) <> Some (u "ng-cli:") ->
  hostname (url_parse address) = None \/ hostname (url_parse address) = Some [] \/
  network w address = NetError ->
  path_isAbsolute address = false ->
  lookup_path (files w) (path_join [path_dirname inPath; address]) = Some (File c) ->
  appendDeprecatedDescription c = Ok t ->
  JSON_parse t = Some v ->
  store_fetch inPath address w = (Done (Some v), w).
Proof.
  intros Hp Hh Ha Hl Ht Hv.
  rewrite (store_fetch_content inPath address w (CText c)); [| | | reflexivity | discriminate].
  - eapply pipeline_done; eassumption.
  - apply first_step_null; assumption.
  - apply relative_step_file; assumption.
Qed.

Lemma fetch_relative_file_witness :
  store_fetch (u "/in/schema.json") (u "defs.json") wx_rel_world =
    (Done (Some (JObj [(u "type", JStr (u "string"))])), wx_rel_world).
Proof.
  apply (fetch_relative_file (u "/in/schema.json") (u "defs.json") (uq "{'type':'string'}")
           (uq "{'type':'string'}") (JObj [(u "type", JStr (u "string"))]) wx_rel_world).
  - vm_compute; discriminate.
  - left; vm_compute; reflexivity.
  - vm_compute; reflexivity.
  - vm_compute; reflexivity.
  - vm_compute; reflexivity.
  - vm_compute; reflexivity.
Defined.

(** An address without a host and without the [ng-cli:] scheme, for which
    neither a file next to the input (when the address is not absolute) nor
    a file at the address itself exists: the fetch resolves to nothing
    ([undefined]) rather than throwing. *)
Theorem fetch_local_nothing_found `{NodePlatform} inPath address w :
  protocol (url_parse address) <> Some (u "ng-cli:") ->
  hostname (url_parse address) = None \/ hostname (url_parse address) = Some [] ->
  path_isAbsolute address = true \/
  lookup_path (files w) (path_join [path_dirname inPath; address]) = None ->
  lookup_path (files w) address = None ->
  store_fetch inPath address w = (Done None, w).
Proof.
  intros Hp Hh Hr Hl; unfold store_fetch.
  rewrite (bind_done _ _ _ _ _ (first_step_null address w Hp ltac:(tauto))).
  rewrite (bind_done _ _ _ _ _ (relative_step_absent inPath address w Hr)).
  rewrite (bind_done _ _ _ _ _ (literal_step_absent address w Hl)); reflexivity.
Qed.

Lemma fetch_local_nothing_found_witness :
  store_fetch (u "/in/schema.json") (u "missing.json") wx_rel_world = (Done None, wx_rel_world).
Proof.
  apply fetch_local_nothing_found.
  - vm_compute; discriminate.
  - left; vm_compute; reflexivity.
  - right; vm_compute; reflexivity.
  - vm_compute; reflexivity.
Defined.

(** A file next to the input that is not JSON is not skipped: the fetch
    rejects with a [SyntaxError] and the literal address is not tried. *)
Theorem fetch_relative_not_json `{NodePlatform} inPath address c w :
  protocol (url_parse address) <> Some (u "ng-cli:") ->
  hostname (url_parse address) = None \/ hostname (url_parse address) = Some [] \/
  network w address = NetError ->
  path_isAbsolute address = false ->
  lookup_path (files w) (path_join [path_dirname inPath; address]) = Some (File c) ->
  JSON_parse c = None ->
  store_fetch inPath address w = (Raise SyntaxError, w).
Proof.
  intros Hp Hh Ha Hl Hc.
  rewrite (store_fetch_content inPath address w (CText c)); [| | | reflexivity | discriminate].
  - apply pipeline_syntax; assumption.
  - apply first_step_null; assumption.
  - apply relative_step_file; assumption.
Qed.

Lemma fetch_relative_not_json_witness :
  store_fetch (u "/in/schema.json") (u "defs.json") wx_bad_world = (Raise SyntaxError, wx_bad_world).
Proof.
  apply (fetch_relative_not_json (u "/in/schema.json") (u "defs.json") (u "type: string")).
  - vm_compute; discriminate.
  - left; vm_compute; reflexivity.
  - vm_compute; reflexivity.
  - vm_compute; reflexivity.
  - vm_compute; reflexivity.
Defined.

(** A directory next to the input: [existsSync] finds it, and
    [readFileSync] rejects with [EISDIR] on the joined path. *)
Theorem fetch_relative_directory `{NodePlatform} inPath address w :
  protocol (url_parse address) <> Some (u "ng-cli:") ->
  hostname (url_parse address) = None \/ hostname (url_parse address) = Some [] \/
  network w address = NetError ->
  path_isAbsolute address = false ->
  lookup_path (files w) (path_join [path_dirname inPath; address]) = Some Dir ->
  store_fetch inPath address w = (Raise (EISDIR (path_join [path_dirname inPath; address])), w).
Proof.
  intros Hp Hh Ha Hl; unfold store_fetch.
  rewrite (bind_done _ _ _ _ _ (first_step_null address w Hp Hh)).
  apply bind_raise, relative_step_dir; assumption.
Qed.

Lemma fetch_relative_directory_witness :
  store_fetch (u "/in/schema.json") (u "defs") wx_dir_world =
    (Raise (EISDIR (path_join [path_dirname (u "/in/schema.json"); u "defs"])), wx_dir_world).
Proof.
  apply (fetch_relative_directory (u "/in/schema.json") (u "defs") wx_dir_world).
  - vm_compute; discriminate.
  - left; vm_compute; reflexivity.
  - vm_compute; reflexivity.
  - vm_compute; reflexivity.
Defined.

(** The literal address: when the first step leaves the content null and
    there is no file next to the input (or the address is absolute), a file
    at the address itself is read, trimmed, pre-processed and parsed. *)
Theorem fetch_literal_file `{NodePlatform} inPath address c t v w :
  protocol (url_parse address) <> Some (u "ng-cli:") ->
  hostname (url_parse address) = None \/ hostname (url_parse address) = Some [] \/
  network w address = NetError ->
  path_isAbsolute address = true \/
  lookup_path (files w) (path_join [path_dirname inPath; address]) = None ->
  lookup_path (files w) address = Some (File c) ->
  appendDeprecatedDescription (trim c) = Ok t ->
  JSON_parse t = Some v ->
  store_fetch inPath address w = (Done (Some v), w).
Proof.
  intros Hp Hh Hr Hl Ht Hv; unfold store_fetch.
  rewrite (bind_done _ _ _ _ _ (first_step_null address w Hp Hh)).
  rewrite (bind_done _ _ _ _ _ (relative_step_absent inPath address w Hr)).
  rewrite (bind_done _ _ _ _ _ (literal_step_file address w c Hl)).
  eapply pipeline_done; eassumption.
Qed.

Lemma fetch_literal_file_witness :
  store_fetch (u "/in/schema.json") (u "/abs/defs.json") wx_lit_world =
    (Done (Some (JObj [(u "type", JStr (u "number"))])), wx_lit_world).
Proof.
  apply (fetch_literal_file (u "/in/schema.json") (u "/abs/defs.json")
           (uq " {'type':'number'}" ++ [10]) (uq "{'type':'number'}")
           (JObj [(u "type", JStr (u "number"))]) wx_lit_world).
  - vm_compute; discriminate.
  - left; vm_compute; reflexivity.
  - left; vm_compute; reflexivity.
  - vm_compute; reflexivity.
  - vm_compute; reflexivity.
  - vm_compute; reflexivity.
Defined.

(** An [ng-cli:] address with a host and a path is read from the Angular
    CLI package next to the tool; its trimmed text is pre-processed and
    parsed, and neither the network nor the other two file steps are
    consulted. *)
Theorem fetch_ng_cli_file `{NodePlatform} inPath address h p c t v w :
  protocol (url_parse address) = Some (u "ng-cli:") ->
  hostname (url_parse address) = Some h ->
  url_path (url_parse address) = Some p ->
  lookup_path (files w) (path_join [module_dirname; u "../packages/angular/cli"; h; p]) =
    Some (File c) ->
  appendDeprecatedDescription (trim c) = Ok t ->
  JSON_parse t = Some v ->
  store_fetch inPath address w = (Done (Some v), w).
Proof.
  intros Hp Hh Hu Hl Ht Hv; unfold store_fetch.
  assert (E : fetch_first_step address w = (Done (CText (trim c)), w)).
  { unfold fetch_first_step; cbv zeta; rewrite (ng_cli_eqb address Hp), Hh, Hu.
    cbv [bind readFileSync ret]; rewrite Hl; reflexivity. }
  rewrite (bind_done _ _ _ _ _ E); cbn [fetch_relative_step].
  rewrite (bind_done _ _ _ _ _ (literal_step_text address (trim c) w)).
  eapply pipeline_done; eassumption.
Qed.

Lemma fetch_ng_cli_file_witness :
  store_fetch (u "/in/schema.json") (u "ng-cli://commands/config.json") wx_ng_world =
    (Done (Some (JObj [(u "type", JStr (u "object"))])), wx_ng_world).
Proof.
  apply (fetch_ng_cli_file (u "/in/schema.json") (u "ng-cli://commands/config.json")
           (u "commands") (u "/config.json") (uq "{'type':'object'}" ++ [10])
           (uq "{'type':'object'}") (JObj [(u "type", JStr (u "object"))]) wx_ng_world).
  - vm_compute; reflexivity.
  - vm_compute; reflexivity.
  - vm_compute; reflexivity.
  - vm_compute; reflexivity.
  - vm_compute; reflexivity.
  - vm_compute; reflexivity.
Defined.

(** An [ng-cli:] address without a host or without a path: the argument
    list of [path.join] holds [null], and the fetch rejects with a
    [TypeError] before any file or the network is consulted. *)
Theorem fetch_ng_cli_incomplete `{NodePlatform} inPath address w :
  protocol (url_parse address) = Some (u "ng-cli:") ->
  hostname (url_parse address) = None \/ url_path (url_parse address) = None ->
  store_fetch inPath address w = (Raise TypeError, w).
Proof.
  intros Hp Hh; unfold store_fetch, fetch_first_step; cbv zeta; rewrite (ng_cli_eqb address Hp).
  destruct Hh as [Hh | Hu]; [rewrite Hh | destruct (hostname (url_parse address)); rewrite ?Hu];
    reflexivity.
Qed.

Lemma fetch_ng_cli_incomplete_witness :
  store_fetch (u "/in/schema.json") (u "ng-cli:config.json") wx_ng_world = (Raise TypeError, wx_ng_world).
Proof.
  apply fetch_ng_cli_incomplete.
  - vm_compute; reflexivity.
  - left; vm_compute; reflexivity.
Defined.

(** ** The files the command line writes *)



(** ** Exit codes *)

Create HintDb exits.

Lemma ret_exits {A} P (a : A) : exits_only P (ret a).
Proof. intros w c H; discriminate H. Qed.

Lemma throw_exits {A} P e : exits_only P (@throw A e).
Proof. intros w c H; discriminate H. Qed.

Lemma lift_exits {A} P (r : result A) : exits_only P (lift r).
Proof. destruct r; intros w c H; discriminate H. Qed.

Lemma process_exit_exits {A} (P : Z -> Prop) c : P c -> exits_only P (@process_exit A c).
Proof. intros Hc w c' H; injection H as <-; exact Hc. Qed.

Lemma bind_exits {A B} P (m : M A) (k : A -> M B) :
  exits_only P m -> (forall a, exits_only P (k a)) -> exits_only P (bind m k).
Proof.
  intros Hm Hk w c; unfold bind.
  destruct (m w) as [[a | e | c'] w'] eqn:E; simpl; [apply Hk | discriminate |].
  intros Hc; injection Hc as <-; apply (Hm w); rewrite E; reflexivity.
Qed.

Lemma try_catch_exits {A} P (m : M A) h :
  exits_only P m -> (forall e, exits_only P (h e)) -> exits_only P (try_catch m h).
Proof.
  intros Hm Hh w c; unfold try_catch.
  destruct (m w) as [[a | e | c'] w'] eqn:E; simpl; [discriminate | apply Hh |].
  intros Hc; injection Hc as <-; apply (Hm w); rewrite E; reflexivity.
Qed.

Lemma readFileSync_exits P p : exits_only P (readFileSync p).
Proof.
  intros w c; unfold readFileSync; destruct (lookup_path (files w) p) as [[] |]; discriminate.
Qed.

Lemma existsSync_exits P p : exits_only P (existsSync p).
Proof. intros w c H; discriminate H. Qed.

Lemma http_fetch_exits P a : exits_only P (http_fetch a).
Proof. intros w c; unfold http_fetch; destruct (network w a); discriminate. Qed.

Lemma parseJSON_exits P t : exits_only P (parseJSON t).
Proof. unfold parseJSON; destruct (JSON_parse t); intros w c H; discriminate H. Qed.

Lemma emit_exits P ef : exits_only P (emit ef).
Proof. intros w c H; discriminate H. Qed.

Lemma get_env_workspace_exits P : exits_only P get_env_workspace.
Proof. intros w c H; discriminate H. Qed.

Lemma writeFileSync_exits P p t : exits_only P (writeFileSync p t).
Proof. intros w c H; discriminate H. Qed.

#[local] Hint Resolve ret_exits throw_exits lift_exits bind_exits try_catch_exits
  readFileSync_exits existsSync_exits http_fetch_exits parseJSON_exits emit_exits
  get_env_workspace_exits writeFileSync_exits : exits.

Section Exits.
Context `{NodePlatform} `{QuicktypeCore}.

Lemma store_fetch_exits P inPath a : exits_only P (store_fetch inPath a).
Proof.
  unfold store_fetch.
  apply bind_exits.
  { unfold fetch_first_step; cbv zeta.
    destruct (option_str_eqb (protocol (url_parse a)) (u "ng-cli:"));
      [destruct (hostname (url_parse a)), (url_path (url_parse a))
      | destruct (option_str_truthy (hostname (url_parse a)))];
      eauto with exits. }
  intros c1; apply bind_exits.
  { unfold fetch_relative_step; destruct c1; [destruct (negb _); cbv zeta | |];
      eauto 6 with exits.
    apply bind_exits; [apply existsSync_exits | intros []]; eauto with exits. }
  intros c2; apply bind_exits.
  { unfold fetch_literal_step; destruct c2; eauto with exits.
    apply bind_exits; [apply existsSync_exits | intros []]; eauto with exits. }
  intros [| |]; eauto with exits.
Qed.

Lemma resolve_refs_exits P inPath l : exits_only P (resolve_refs inPath l).
Proof.
  induction l as [| a r IH]; simpl; eauto with exits.
  apply bind_exits; [apply store_fetch_exits | intros [v |]]; eauto with exits.
Qed.

Lemma generate_exits P inPath : exits_only P (generate inPath).
Proof.
  unfold generate, quicktype.
  repeat (apply bind_exits; [eauto using resolve_refs_exits with exits | intros ?]).
  apply ret_exits.
Qed.

Lemma main_exits inPath outPath : exits_only (fun c => c = 0) (main inPath outPath).
Proof.
  unfold main.
  apply bind_exits; [apply generate_exits | intros content].
  apply bind_exits.
  { destruct (jsstr_eqb outPath (u "-")); [| apply ret_exits].
    apply bind_exits; [apply emit_exits | intros _; apply process_exit_exits; reflexivity]. }
  intros _; apply bind_exits; [apply get_env_workspace_exits | intros ws; cbv zeta].
  apply writeFileSync_exits.
Qed.

End Exits.

(** Every run of the command line ends in [process.exit], with code 1
    (wrong argument count), 0 (output written or printed) or 127 (an error
    was caught): it never returns normally nor lets an error escape. *)
Theorem cli_exit_codes `{NodePlatform} `{QuicktypeCore} argv w :
  exists c, fst (cli argv w) = Exited c /\ (c = 0 \/ c = 1 \/ c = 127).
Proof.
  unfold cli.
  destruct ((List.length argv <? 2)%nat || (3 <? List.length argv)%nat).
  - exists 1; split; [reflexivity | lia].
  - cbv [bind ret]; unfold try_catch.
    pose proof (main_exits (nth 0 argv []) (nth 1 argv []) w) as Hm.
    destruct (main (nth 0 argv []) (nth 1 argv []) w) as [[a | e | c] w'] eqn:E; simpl in *.
    + exists 0; split; [reflexivity | lia].
    + exists 127; split; [reflexivity | lia].
    + exists c; split; [reflexivity |]; left; apply (Hm c); reflexivity.
Qed.



(** The optional third argument has no effect: with two or three
    arguments, the run is the one on the first two. *)
Theorem cli_third_argument_ignored `{NodePlatform} `{QuicktypeCore} (argv : list jsstr) w :
  (2 <= List.length argv <= 3)%nat ->
  cli argv w = cli [nth 0 argv []; nth 1 argv []] w.
Proof.
  intros Hlen; unfold cli.
  rewrite (argc_ok argv Hlen), (argc_ok [nth 0 argv []; nth 1 argv []]) by (simpl; lia).
  reflexivity.
Qed.

Lemma cli_third_argument_ignored_witness :
  cli [u "/ws/in.json"; u "out.ts"; u "--extra"] wx_cli_world =
  cli [u "/ws/in.json"; u "out.ts"] wx_cli_world.
Proof. apply (cli_third_argument_ignored [u "/ws/in.json"; u "out.ts"; u "--extra"]); simpl; lia. Defined.

Section InputErrors.
Context `{NodePlatform} `{QuicktypeCore}.




End InputErrors.



(** Generation only reads: reading the input, fetching every reference
    (over the network or from files) and rendering leave the files, the
    environment and the output as they were. *)
Theorem generation_reads_only `{NodePlatform} `{QuicktypeCore} inPath w :
  snd (generate inPath w) = w /\ (forall a, snd (store_fetch inPath a w) = w).
Proof. split; [apply generate_ro | intros a; apply store_fetch_ro]. Qed.

(** ** What appendDeprecatedDescription returns *)


















(** ** When appendDeprecatedDescription throws *)

Lemma mark_deprecated_err v e : mark_deprecated v = Err e <-> v = JNull /\ e = TypeError.
Proof.
  split; [| intros [-> ->]; reflexivity].
  destruct v as [| b | d | s | l | fs]; simpl; try discriminate.
  - intros E; injection E as <-; auto.
  - destruct (get_prop fs k_x_deprecated); [destruct (truthy _) |]; discriminate.
Qed.

Lemma mark_deprecated_ok_or v : mark_deprecated v = Err TypeError \/ exists v', mark_deprecated v = Ok v'.
Proof.
  destruct (mark_deprecated v) as [v' | e] eqn:E; [eauto |].
  apply mark_deprecated_err in E; destruct E as [_ ->]; auto.
Qed.





(** ** What appendDeprecatedDescription leaves as it was *)







(** An annotation that is truthy but not a string ([true], a non-zero
    number, an array or an object) appends exactly ["\n@deprecated"] to the
    prior description converted by ToString (the empty string when absent,
    so a number [5] gives ["5"]); the entry's other members are kept. *)
Theorem deprecated_nonstring_annotation fs pfs k efs dep prior schema out :
  JSON_parse schema = Some (JObj fs) ->
  get_prop fs k_properties = Some (JObj pfs) ->
  get_prop pfs k = Some (JObj efs) ->
  get_prop efs k_x_deprecated = Some dep ->
  truthy dep = true ->
  (forall s, dep <> JStr s) ->
  (get_prop efs k_description = None /\ prior = [] \/
   exists d, get_prop efs k_description = Some d /\ prior = to_js_string d) ->
  appendDeprecatedDescription schema = Ok out ->
  exists fs' pfs' efs',
    out = JSON_stringify (JObj fs') /\
    get_prop fs' k_properties = Some (JObj pfs') /\
    get_prop pfs' k = Some (JObj efs') /\
    get_prop efs' k_description = Some (JStr (prior ++ [10] ++ u "@deprecated")) /\
    (forall j, j <> k_description -> get_prop efs' j = get_prop efs j).
Proof.
  intros Hp Hprops Hk Hdep Ht Hns Hprior Hout.
  destruct (append_entry _ _ _ _ _ _ Hp Hprops Hk Hout) as (fs' & pfs' & entry' & -> & H1 & H2 & Hm).
  simpl in Hm; rewrite Hdep, Ht in Hm; injection Hm as <-.
  exists fs', pfs', (set_prop efs k_description
    (JStr (to_js_string (match get_prop efs k_description with Some d => d | None => JStr [] end)
           ++ deprecated_note dep))).
  split; [reflexivity | split; [exact H1 | split; [exact H2 | split]]].
  - rewrite get_set_same; f_equal; f_equal.
    assert (Hn : deprecated_note dep = [10] ++ u "@deprecated").
    { unfold deprecated_note; destruct dep; try reflexivity; destruct (Hns s eq_refl). }
    rewrite Hn; f_equal.
    destruct Hprior as [[-> ->] | (d & -> & ->)]; reflexivity.
  - intros j Hj; apply get_set_other, Hj.
Qed.

Lemma deprecated_nonstring_annotation_witness :
  exists fs' pfs' efs',
    wx_num_out = JSON_stringify (JObj fs') /\
    get_prop fs' k_properties = Some (JObj pfs') /\
    get_prop pfs' (u "a") = Some (JObj efs') /\
    get_prop efs' k_description = Some (JStr (u "5" ++ [10] ++ u "@deprecated")) /\
    (forall j, j <> k_description -> get_prop efs' j = get_prop wx_num_efs j).
Proof.
  apply (deprecated_nonstring_annotation wx_num_fs wx_num_pfs (u "a") wx_num_efs
           (JNum (DFin false 4503599627370496 (-52))) (u "5") wx_num_schema wx_num_out).
  - vm_compute; reflexivity.
  - vm_compute; reflexivity.
  - vm_compute; reflexivity.
  - vm_compute; reflexivity.
  - vm_compute; reflexivity.
  - intros s E; discriminate E.
  - right; exists (JNum (DFin false 5629499534213120 (-50))); split; vm_compute; reflexivity.
  - vm_compute; reflexivity.
Defined.
